(** * ember-firebase: ordered list proxies and the Firebase binding

    A shallow embedding of the parts of [ember-firebase.js] that keep a local
    ordered collection in step with Firebase child events
    ([Firebase.List], [Firebase.Array]) and of the scheduler of
    [Firebase.Binding].

    JavaScript numbers used as array indices are integers here ([Z]), so that
    the [-1] of [Array.prototype.indexOf] and the [+ 1] of [_indexAfter] are the
    arithmetic the source performs. *)

From Stdlib Require Import ZArith Lia.
From stdpp Require Import base strings list gmap functions pretty.

Local Open Scope string_scope.
Local Open Scope list_scope.

(** ** JavaScript values *)

(** The values stored at a Firebase location or in an Ember property.
    [JModel json] is an object that has a [toJSON] method returning [json];
    [JObject id] is any other object, known by its identity. *)
Inductive jsval :=
  | JUndefined
  | JNull
  | JBool (b : bool)
  | JNum (n : Z)
  | JStr (s : string)
  | JObject (id : nat)
  | JModel (json : jsval).

(** Errors thrown by the code: [new Error(msg)] and the [TypeError] of a
    property access on [undefined]. *)
Inductive error :=
  | Error (msg : string)
  | TypeError (msg : string).

(** The way a call ends: it returns, or it throws; in both cases the mutable
    state reached so far is kept. *)
Inductive completion (S : Type) :=
  | Normal (s : S)
  | Throw (e : error) (s : S).
Arguments Normal {S} s.
Arguments Throw {S} e s.

(** The state a call ends in, returned or thrown. *)
Definition final {S} (c : completion S) : S :=
  match c with
  | Normal st => st
  | Throw _ st => st
  end.

(** [getFirebaseValue]:
    [object && isFunction(object.toJSON) ? object.toJSON() : object]. *)
Definition getFirebaseValue (object : jsval) : jsval :=
  match object with
  | JModel json => json
  | _ => object
  end.

(** A string used as a condition: only the empty string is falsy. *)
Definition truthy (s : string) : bool :=
  match s with
  | EmptyString => false
  | String _ _ => true
  end.

(** ** JavaScript arrays *)

Module JsArray.

(** Clamping of a relative start or end index, as [splice] and [slice] do:
    a negative index counts from the end. *)
Definition relative (i len : Z) : Z :=
  (if i <? 0 then Z.max (len + i) 0 else Z.min i len)%Z.

(** [arr.splice(start, deleteCount, ...items)], the array afterwards. *)
Definition splice {A} (start deleteCount : Z) (items : list A) (arr : list A) : list A :=
  let len := Z.of_nat (length arr) in
  let s := relative start len in
  let d := Z.min (Z.max deleteCount 0) (len - s) in
  take (Z.to_nat s) arr ++ items ++ drop (Z.to_nat (s + d)) arr.

(** [arr.slice(start, end)]. *)
Definition slice {A} (start end_ : Z) (arr : list A) : list A :=
  let len := Z.of_nat (length arr) in
  let s := relative start len in
  let e := relative end_ len in
  take (Z.to_nat (e - s)) (drop (Z.to_nat s) arr).

(** An array that may have holes: [None] is a missing element. *)
Abbreviation sparse A := (list (option A)).

(** [arr.indexOf(x)]: the first index holding [x], [-1] when there is none.
    Holes are never equal to [x]. *)
Fixpoint indexOf {A} `{EqDecision A} (x : A) (arr : sparse A) : Z :=
  match arr with
  | [] => (-1)%Z
  | y :: rest =>
      if decide (y = Some x) then 0%Z
      else let r := indexOf x rest in
           if (r =? -1)%Z then (-1)%Z else (r + 1)%Z
  end.

(** [arr[i] = x]. Inside the array the element is overwritten; at or beyond
    [arr.length] the array is extended, with holes up to [i]; a negative [i]
    names a property that is no element. *)
Definition store {A} (i : Z) (x : A) (arr : sparse A) : sparse A :=
  if (i <? 0)%Z then arr
  else
    let n := Z.to_nat i in
    if decide (n < length arr) then <[n := Some x]> arr
    else arr ++ replicate (n - length arr) None ++ [Some x].

(** [forEach] visits the elements that exist, in order. *)
Definition present {A} (arr : sparse A) : list A := omap id arr.

(** [forEach(arr, f)] for an [f] that acts on a state. *)
Definition forEach {A S} (arr : list A) (f : A -> S -> S) (s : S) : S :=
  fold_left (fun acc x => f x acc) arr s.

End JsArray.

(** ** JavaScript plain objects *)

Module JsObject.

(** An object made by [{}]: the keys it owns, with their values, and whether
    its prototype has been set to [null]. Its first prototype is
    [Object.prototype], which has the accessor [__proto__]. *)
Record t := Make {
  own : gmap string jsval;
  null_prototype : bool
}.

(** [{}]. *)
Definition empty : t := {| own := ∅; null_prototype := false |}.

(** The name of the accessor of [Object.prototype]. *)
Definition proto : string := "__proto__".

(** [obj[key] = value]. For the key [__proto__] of an object that does not
    own it and still inherits the accessor, the assignment calls the setter:
    no key is made, and the prototype becomes [null] for the value [null],
    the value for an object, and stays for any other value. Every other
    assignment sets a key of the object itself. An object among the values
    inherits from [Object.prototype], so that an object which has it as
    prototype still inherits the accessor. *)
Definition assign (key : string) (value : jsval) (o : t) : t :=
  if decide (key = proto /\ own o !! key = None /\ null_prototype o = false) then
    {| own := own o;
       null_prototype := match value with JNull => true | _ => false end |}
  else
    {| own := <[key := value]> (own o); null_prototype := null_prototype o |}.

End JsObject.

(** A child event's snapshot: [snapshot.name()] and [snapshot.val()]. *)
Record snapshot := Snapshot { snap_name : string; snap_val : jsval }.

(** [getSnapshotValue] of the last version of the library: [snapshot.val()]. *)
Definition getSnapshotValue (s : snapshot) : jsval := snap_val s.

(** A Firebase location, by its URL. *)
Definition location := string.

(** ** Firebase.List *)

Module FirebaseList.

(** The list proxy: its writable reference ([baseRef], absent when the proxy
    has no [ref]), the [content] array and the parallel [_names] array. *)
Record t := Make {
  baseRef : option location;
  content : list jsval;
  names : JsArray.sparse string
}.

(** Calls made on the Firebase reference:
    [ref.child(childName).remove()] and [ref.push().set(value)]. *)
Inductive remote_op :=
  | ChildRemove (ref : location) (childName : string)
  | PushSet (ref : location) (value : jsval).

(** [_resetContent]: both arrays start empty. *)
Definition _resetContent (l : t) : t :=
  {| baseRef := baseRef l; content := []; names := [] |}.

(** [_indexAfter]:
    [childName ? this._names.indexOf(childName) + 1 : 0]. *)
Definition _indexAfter (l : t) (childName : option string) : Z :=
  match childName with
  | Some n => if truthy n then (JsArray.indexOf n (names l) + 1)%Z else 0%Z
  | None => 0%Z
  end.

Section Handlers.

(** [name in this]: whether the proxy object itself has a property of that
    name. It depends on Ember's [ArrayProxy], which is outside the
    library. *)
Variable has_property : string -> bool.

(** [createValueFromSnapshot] of [Firebase.Proxy]:
    [(snapshot.name() in this) ? null : getSnapshotValue(snapshot)]. *)
Definition createValueFromSnapshot (s : snapshot) : jsval :=
  if has_property (snap_name s) then JNull else getSnapshotValue s.

(** [childWasAdded]: [content.replace(index, 0, [value])], then
    [this._names[index] = snapshot.name()]. *)
Definition childWasAdded (s : snapshot) (previousName : option string) (l : t) : t :=
  let index := _indexAfter l previousName in
  {| baseRef := baseRef l;
     content := JsArray.splice index 0 [createValueFromSnapshot s] (content l);
     names := JsArray.store index (snap_name s) (names l) |}.

(** [childWasChanged]: [content.replace(index, 1, [value])], then
    [this._names[index] = snapshot.name()]. *)
Definition childWasChanged (s : snapshot) (previousName : option string) (l : t) : t :=
  let index := _indexAfter l previousName in
  {| baseRef := baseRef l;
     content := JsArray.splice index 1 [createValueFromSnapshot s] (content l);
     names := JsArray.store index (snap_name s) (names l) |}.

(** [childWasRemoved]: when the name is found, [content.replace(index, 1)]
    and [this._names.splice(index, 1)]. *)
Definition childWasRemoved (s : snapshot) (l : t) : t :=
  let index := JsArray.indexOf (snap_name s) (names l) in
  if (index =? -1)%Z then l
  else
    {| baseRef := baseRef l;
       content := JsArray.splice index 1 [] (content l);
       names := JsArray.splice index 1 [] (names l) |}.

(** [childWasMoved]: removed, then added again. *)
Definition childWasMoved (s : snapshot) (previousName : option string) (l : t) : t :=
  childWasAdded s previousName (childWasRemoved s l).

(** The four child events a reference delivers. *)
Inductive event :=
  | child_added (s : snapshot) (previousName : option string)
  | child_changed (s : snapshot) (previousName : option string)
  | child_removed (s : snapshot)
  | child_moved (s : snapshot) (previousName : option string).

Definition handle (e : event) (l : t) : t :=
  match e with
  | child_added s p => childWasAdded s p l
  | child_changed s p => childWasChanged s p l
  | child_removed s => childWasRemoved s l
  | child_moved s p => childWasMoved s p l
  end.

End Handlers.

(** [replaceContent]: throws when the reference is missing; otherwise one
    [remove] per name of [_names.slice(index, index + amount)] and then one
    [push().set] per object. The function reads the proxy and acts on the
    reference only; the calls it makes are appended to the log. *)
Definition replaceContent (index amount : Z) (objects : list jsval)
    (st : t * list remote_op) : completion (t * list remote_op) :=
  let '(l, log) := st in
  match baseRef l with
  | None => Throw (Error "Cannot replace content of %@, ref is missing") (l, log)
  | Some ref =>
      let log1 :=
        JsArray.forEach
          (JsArray.present (JsArray.slice index (index + amount) (names l)))
          (fun childName (acc : list remote_op) => acc ++ [ChildRemove ref childName])
          log in
      let log2 :=
        JsArray.forEach objects
          (fun object (acc : list remote_op) =>
             acc ++ [PushSet ref (getFirebaseValue object)])
          log1 in
      Normal (l, log2)
  end.

(** [hasChild]: [this._names.indexOf(childName) !== -1]. *)
Definition hasChild (childName : string) (l : t) : bool :=
  negb (JsArray.indexOf childName (names l) =? -1)%Z.

(** [childNameAt]: [this._names[index]]; [None] is [undefined], the answer
    outside the array and at a hole. *)
Definition childNameAt (index : Z) (l : t) : option string :=
  if (index <? 0)%Z then None else mjoin (names l !! Z.to_nat index).

(** The key a name is used as in [json[names[i]]]: a missing element reads
    as [undefined]. *)
Definition property_key (name : option string) : string :=
  match name with
  | Some n => n
  | None => "undefined"
  end.

(** The loop of [toJSON], from index [i] on:
    [json[names[i]] = getFirebaseValue(content[i])]; beyond [content] the
    value read is [undefined]. *)
Fixpoint toJSON_loop (i : nat) (rest : JsArray.sparse string) (content : list jsval)
    (json : JsObject.t) : JsObject.t :=
  match rest with
  | [] => json
  | name :: rest' =>
      toJSON_loop (S i) rest' content
        (JsObject.assign (property_key name)
           (getFirebaseValue (default JUndefined (content !! i))) json)
  end.

(** [toJSON]: the keys of the object it returns. *)
Definition toJSON (l : t) : gmap string jsval :=
  JsObject.own (toJSON_loop 0 (names l) (content l) JsObject.empty).

(** Child events handled one after the other. *)
Definition deliver (has_property : string -> bool) (es : list event) (l : t) : t :=
  fold_left (fun acc e => handle has_property e acc) es l.

(** The events a reference delivers for children that appear one behind the
    other: each [child_added] names the child before it, the first one
    [prev]. *)
Fixpoint appended (prev : option string) (children : list (string * jsval)) : list event :=
  match children with
  | [] => []
  | (n, v) :: rest => child_added (Snapshot n v) prev :: appended (Some n) rest
  end.

(** The properties [Firebase.List] and [Firebase.Proxy] define themselves. *)
Definition declared_properties : list string :=
  [ "ref"; "baseRef"; "baseUrl"; "init"; "willDestroy"; "_setupRef";
    "_teardownRef"; "childWasAdded"; "childWasChanged"; "childWasRemoved";
    "childWasMoved"; "childRef"; "createValueFromSnapshot"; "_resetContent";
    "_names"; "content"; "hasChild"; "childNameAt"; "_indexAfter";
    "replaceContent"; "pushWithPriority"; "toHash"; "toString"; "toJSON" ].

Definition declared (name : string) : bool :=
  existsb (String.eqb name) declared_properties.

End FirebaseList.


(** ** Firebase.Hash *)

Module FirebaseHash.

(** The hash proxy: its writable reference and its [content], a plain
    object: the keys it owns with their values, and whether its prototype
    has been set to [null]. *)
Record t := Make {
  baseRef : option location;
  content : gmap string jsval;
  null_prototype : bool
}.

(** [_resetContent]: [content] starts as [{}]. *)
Definition _resetContent (h : t) : t :=
  {| baseRef := baseRef h; content := ∅; null_prototype := false |}.

(** [obj[key]]: a key the object does not have reads as [undefined]. *)
Definition read (key : string) (obj : gmap string jsval) : jsval :=
  default JUndefined (obj !! key).

(** [hasChild]: [childName in content]. *)
Definition hasChild (childName : string) (h : t) : bool :=
  bool_decide (is_Some (content h !! childName)).

(** [toJSON]: for each key of [content],
    [json[property] = getFirebaseValue(get(content, property))]; the keys
    of the object it returns. *)
Definition toJSON (h : t) : gmap string jsval :=
  JsObject.own
    (fold_left
       (fun json kv => JsObject.assign kv.1 (getFirebaseValue kv.2) json)
       (map_to_list (content h)) JsObject.empty).

Section Handlers.

(** [name in this], as for the list proxy. *)
Variable has_property : string -> bool.

(** Whether Ember watches a key of [content], and its test for a value that
    differs from the current one. Both belong to Ember. *)
Variable watching : string -> bool.
Variable changed : jsval -> jsval -> bool.

(** [Ember.set(content, key, value)] on the plain object: a watched key is
    assigned only when the value differs from the current one, any other key
    is assigned; the assignment is [content[key] = value]. *)
Definition set (key : string) (value : jsval) (obj : JsObject.t) : JsObject.t :=
  if watching key then
    if changed (read key (JsObject.own obj)) value
    then JsObject.assign key value obj else obj
  else JsObject.assign key value obj.

(** [set] on the [content] of the hash. *)
Definition set_content (key : string) (value : jsval) (h : t) : t :=
  let obj := set key value (JsObject.Make (content h) (null_prototype h)) in
  {| baseRef := baseRef h;
     content := JsObject.own obj;
     null_prototype := JsObject.null_prototype obj |}.

(** [childWasAdded]. *)
Definition childWasAdded (s : snapshot) (h : t) : t :=
  set_content (snap_name s) (FirebaseList.createValueFromSnapshot has_property s) h.

(** [childWasChanged]. *)
Definition childWasChanged (s : snapshot) (h : t) : t :=
  set_content (snap_name s) (FirebaseList.createValueFromSnapshot has_property s) h.

(** [childWasRemoved]: the key is set to [undefined]. *)
Definition childWasRemoved (s : snapshot) (h : t) : t :=
  set_content (snap_name s) JUndefined h.

End Handlers.

End FirebaseHash.


(** ** Firebase.Array, the earlier list proxy *)

Module FirebaseArray.

(** The name of the child that marks a location as an array. *)
Definition marker : string := "_isArray".

(** What a snapshot of this version answers: [name()], [val()],
    [hasChildren()], [hasChild('_isArray')] and [ref()]. *)
Record snapshot := Snapshot {
  snap_name : string;
  snap_val : jsval;
  snap_hasChildren : bool;
  snap_hasMarker : bool;
  snap_ref : location
}.

(** An element of [content]: a plain value, or a proxy created for a child
    location that has children of its own. *)
Inductive element :=
  | Plain (v : jsval)
  | ArrayNode (ref : location)
  | ObjectNode (ref : location).

(** [getSnapshotValue] of this version. *)
Definition getSnapshotValue (s : snapshot) : element :=
  if snap_hasChildren s then
    if snap_hasMarker s then ArrayNode (snap_ref s) else ObjectNode (snap_ref s)
  else Plain (snap_val s).

Record t := Make {
  content : list element;
  names : JsArray.sparse string
}.

(** [_resetContent]. *)
Definition _resetContent : t := {| content := []; names := [] |}.

(** Ember's [insertAt(idx, object)]: out of range beyond the length,
    [replace(idx, 0, [object])] otherwise. *)
Definition insertAt {A} (idx : Z) (object : A) (arr : list A) : completion (list A) :=
  if (Z.of_nat (length arr) <? idx)%Z then Throw (Error "Index out of range") arr
  else Normal (JsArray.splice idx 0 [object] arr).

(** Ember's [removeAt(start)]: out of range outside the array,
    [replace(start, 1, [])] otherwise. *)
Definition removeAt {A} (start : Z) (arr : list A) : completion (list A) :=
  if ((start <? 0) || (Z.of_nat (length arr) <=? start))%Z
  then Throw (Error "Index out of range") arr
  else Normal (JsArray.splice start 1 [] arr).

(** [_indexAfter]: [name ? this._names.indexOf(name) + 1 : 0]. *)
Definition _indexAfter (l : t) (name : option string) : Z :=
  match name with
  | Some n => if truthy n then (JsArray.indexOf n (names l) + 1)%Z else 0%Z
  | None => 0%Z
  end.

(** [childWasAdded], behind the guard on the marker. *)
Definition childWasAdded (s : snapshot) (previousName : option string) (l : t) : completion t :=
  if String.eqb (snap_name s) marker then Normal l
  else
    let index := _indexAfter l previousName in
    match insertAt index (getSnapshotValue s) (content l) with
    | Throw e _ => Throw e l
    | Normal c =>
        Normal {| content := c; names := JsArray.store index (snap_name s) (names l) |}
    end.

(** [childWasChanged], behind the guard on the marker. *)
Definition childWasChanged (s : snapshot) (previousName : option string) (l : t) : completion t :=
  if String.eqb (snap_name s) marker then Normal l
  else
    let index := _indexAfter l previousName in
    Normal {| content := JsArray.splice index 1 [getSnapshotValue s] (content l);
              names := JsArray.store index (snap_name s) (names l) |}.

(** [childWasRemoved], behind the guard on the marker. *)
Definition childWasRemoved (s : snapshot) (l : t) : completion t :=
  if String.eqb (snap_name s) marker then Normal l
  else
    let index := JsArray.indexOf (snap_name s) (names l) in
    if (index =? -1)%Z then Normal l
    else
      match removeAt index (content l) with
      | Throw e _ => Throw e l
      | Normal c =>
          Normal {| content := c; names := JsArray.splice index 1 [] (names l) |}
      end.

(** [childWasMoved], behind the guard on the marker: removed, then added. *)
Definition childWasMoved (s : snapshot) (previousName : option string) (l : t) : completion t :=
  if String.eqb (snap_name s) marker then Normal l
  else
    match childWasRemoved s l with
    | Throw e l' => Throw e l'
    | Normal l' => childWasAdded s previousName l'
    end.

Inductive event :=
  | child_added (s : snapshot) (previousName : option string)
  | child_changed (s : snapshot) (previousName : option string)
  | child_removed (s : snapshot)
  | child_moved (s : snapshot) (previousName : option string).

Definition event_name (e : event) : string :=
  match e with
  | child_added s _ | child_changed s _ | child_removed s | child_moved s _ => snap_name s
  end.

Definition handle (e : event) (l : t) : completion t :=
  match e with
  | child_added s p => childWasAdded s p l
  | child_changed s p => childWasChanged s p l
  | child_removed s => childWasRemoved s l
  | child_moved s p => childWasMoved s p l
  end.

(** Events delivered one after the other; a handler that throws ends the
    delivery. *)
Fixpoint deliver (es : list event) (l : t) : completion t :=
  match es with
  | [] => Normal l
  | e :: rest =>
      match handle e l with
      | Throw err l' => Throw err l'
      | Normal l' => deliver rest l'
      end
  end.

(** [Firebase.getArrayValue]: the object [{ _isArray: true }] with, for each
    index, [value[index] = getFirebaseValue(object)]. A plain object is a map
    from its keys to their values; the key of an index is its decimal
    numeral. *)
Fixpoint getArrayValue_from (index : nat) (array : list jsval)
    (value : gmap string jsval) : gmap string jsval :=
  match array with
  | [] => value
  | object :: rest =>
      getArrayValue_from (S index) rest (<[pretty index := getFirebaseValue object]> value)
  end.

Definition getArrayValue (array : list jsval) : gmap string jsval :=
  getArrayValue_from 0 array {[ marker := JBool true ]}.

Section Serialization.

(** What [toJSON] of the proxy created for a child location returns; it
    depends on the events that proxy has handled. *)
Variable node_toJSON : location -> jsval.

(** [getFirebaseValue] on an element of [content]: a proxy has a [toJSON]
    method, which is called. *)
Definition getFirebaseValue_element (e : element) : jsval :=
  match e with
  | Plain v => getFirebaseValue v
  | ArrayNode ref => node_toJSON ref
  | ObjectNode ref => node_toJSON ref
  end.

(** The loop of [toJSON], from index [i] on:
    [json[names[i]] = getFirebaseValue(content[i])]. *)
Fixpoint toJSON_loop (i : nat) (rest : JsArray.sparse string) (content : list element)
    (json : JsObject.t) : JsObject.t :=
  match rest with
  | [] => json
  | name :: rest' =>
      toJSON_loop (S i) rest' content
        (JsObject.assign
           match name with Some n => n | None => "undefined" end
           match content !! i with
           | Some e => getFirebaseValue_element e
           | None => JUndefined
           end
           json)
  end.

(** [toJSON]: starts from [{ _isArray: true }]; the keys of the object it
    returns. *)
Definition toJSON (l : t) : gmap string jsval :=
  JsObject.own
    (toJSON_loop 0 (names l) (content l)
       (JsObject.Make {[ marker := JBool true ]} false)).

End Serialization.

(** The two properties every handler keeps: no hole in [_names], and
    [_names] not longer than [content]. *)
Definition aligned (l : t) : Prop :=
  Forall is_Some (names l) /\ length (names l) <= length (content l).

End FirebaseArray.


(** ** Firebase.Binding *)

Module Binding.

Inductive direction := push | pull.

#[global] Instance direction_eq_dec : EqDecision direction.
Proof. solve_decision. Defined.

(** An Ember object a binding is connected to, known by its identity: its
    [isDestroyed] flag and the value of the property at the binding's path. *)
Record owner := Owner { isDestroyed : bool; prop : jsval }.

(** The binding together with what it acts on: the connected objects
    ([heap]), the observers Ember holds for [_pathDidChange] on the bound path
    ([pathObservers], those suspended among them in [suspended]), the calls
    of [_sync] waiting in the run loop's [sync] queue, and the values written
    to the reference ([writes], one per [ref.set]). *)
Record t := Make {
  ref : location;
  _oneWay : bool;
  _objects : list nat;
  _observingRef : bool;
  _directionMap : gmap nat direction;
  _ignoreRefChanges : bool;
  heap : nat -> owner;
  pathObservers : gset nat;
  suspended : gset nat;
  syncQueue : list (nat * option snapshot);
  writes : list jsval
}.

Definition with_oneWay (v : bool) (b : t) : t :=
  Make (ref b) v (_objects b) (_observingRef b) (_directionMap b)
       (_ignoreRefChanges b) (heap b) (pathObservers b) (suspended b)
       (syncQueue b) (writes b).

Definition with_objects (v : list nat) (b : t) : t :=
  Make (ref b) (_oneWay b) v (_observingRef b) (_directionMap b)
       (_ignoreRefChanges b) (heap b) (pathObservers b) (suspended b)
       (syncQueue b) (writes b).

Definition with_observingRef (v : bool) (b : t) : t :=
  Make (ref b) (_oneWay b) (_objects b) v (_directionMap b)
       (_ignoreRefChanges b) (heap b) (pathObservers b) (suspended b)
       (syncQueue b) (writes b).

Definition with_directionMap (v : gmap nat direction) (b : t) : t :=
  Make (ref b) (_oneWay b) (_objects b) (_observingRef b) v
       (_ignoreRefChanges b) (heap b) (pathObservers b) (suspended b)
       (syncQueue b) (writes b).

Definition with_ignoreRefChanges (v : bool) (b : t) : t :=
  Make (ref b) (_oneWay b) (_objects b) (_observingRef b) (_directionMap b)
       v (heap b) (pathObservers b) (suspended b) (syncQueue b) (writes b).

Definition with_heap (v : nat -> owner) (b : t) : t :=
  Make (ref b) (_oneWay b) (_objects b) (_observingRef b) (_directionMap b)
       (_ignoreRefChanges b) v (pathObservers b) (suspended b)
       (syncQueue b) (writes b).

Definition with_pathObservers (v : gset nat) (b : t) : t :=
  Make (ref b) (_oneWay b) (_objects b) (_observingRef b) (_directionMap b)
       (_ignoreRefChanges b) (heap b) v (suspended b) (syncQueue b) (writes b).

Definition with_suspended (v : gset nat) (b : t) : t :=
  Make (ref b) (_oneWay b) (_objects b) (_observingRef b) (_directionMap b)
       (_ignoreRefChanges b) (heap b) (pathObservers b) v
       (syncQueue b) (writes b).

Definition with_syncQueue (v : list (nat * option snapshot)) (b : t) : t :=
  Make (ref b) (_oneWay b) (_objects b) (_observingRef b) (_directionMap b)
       (_ignoreRefChanges b) (heap b) (pathObservers b) (suspended b)
       v (writes b).

Definition with_writes (v : list jsval) (b : t) : t :=
  Make (ref b) (_oneWay b) (_objects b) (_observingRef b) (_directionMap b)
       (_ignoreRefChanges b) (heap b) (pathObservers b) (suspended b)
       (syncQueue b) v.

(** [new Firebase.Binding(path, ref)], over the objects of [h]. *)
Definition create (r : location) (h : nat -> owner) : t :=
  Make r false [] false ∅ false h ∅ ∅ [] [].

(** [oneWay]. *)
Definition oneWay (b : t) : t := with_oneWay true b.

(** [createValueFromSnapshot] of a binding is [getSnapshotValue], that is
    [snapshot.val()]; without a snapshot the call on [undefined] throws. *)
Definition createValueFromSnapshot (s : option snapshot) : option jsval :=
  match s with
  | Some snap => Some (getSnapshotValue snap)
  | None => None
  end.

(** [_scheduleSync]. *)
Definition _scheduleSync (d : direction) (object : nat) (s : option snapshot) (b : t) : t :=
  let existingDirection := _directionMap b !! object in
  let b1 :=
    match existingDirection with
    | None =>
        with_directionMap (<[object := d]> (_directionMap b))
          (with_syncQueue (syncQueue b ++ [(object, s)]) b)
    | Some _ => b
    end in
  if decide (existingDirection = Some push /\ d = pull)
  then with_directionMap (<[object := pull]> (_directionMap b1)) b1
  else b1.

(** [_refDidChange]. *)
Definition _refDidChange (s : snapshot) (b : t) : t :=
  if _ignoreRefChanges b then b
  else JsArray.forEach (_objects b) (fun object => _scheduleSync pull object (Some s)) b.

(** [_pathDidChange]. *)
Definition _pathDidChange (object : nat) (b : t) : t :=
  _scheduleSync push object None b.

(** [connect]. *)
Definition connect (object : nat) (b : t) : t :=
  let b1 :=
    if decide (object ∈ _objects b) then b
    else with_objects (_objects b ++ [object]) b in
  let b2 := if _observingRef b1 then b1 else with_observingRef true b1 in
  if _oneWay b2 then b2
  else with_pathObservers ({[object]} ∪ pathObservers b2) b2.

(** [disconnect]. *)
Definition disconnect (object : nat) (b : t) : t :=
  let b1 := with_objects (filter (fun o => o <> object) (_objects b)) b in
  let b2 :=
    if decide (length (_objects b1) = 0 /\ _observingRef b1 = true)
    then with_observingRef false b1 else b1 in
  let b3 :=
    if _oneWay b2 then b2
    else with_pathObservers (pathObservers b2 ∖ {[object]}) b2 in
  with_directionMap (delete object (_directionMap b3)) b3.

Section Ember.

(** Ember's test in [set] for a value that differs from the current one
    ([value !== currentValue]); observers are only told of such a change. *)
Variable changed : jsval -> jsval -> bool.

(** [Ember.set(object, path, value)]: the property is written and the
    observers of the path that are not suspended are called. The only
    observer in this model is the binding's [_pathDidChange]. *)
Definition set (object : nat) (value : jsval) (b : t) : t :=
  let current := prop (heap b object) in
  if changed current value then
    let b1 :=
      with_heap (<[object := Owner (isDestroyed (heap b object)) value]> (heap b)) b in
    if decide (object ∈ pathObservers b1 /\ object ∉ suspended b1)
    then _pathDidChange object b1
    else b1
  else b.

(** [Ember.trySet]: [set] that leaves a destroyed object alone. *)
Definition trySet (object : nat) (value : jsval) (b : t) : t :=
  if isDestroyed (heap b object) then b else set object value b.

(** [Ember._suspendObserver(object, path, this, this._pathDidChange, callback)]. *)
Definition _suspendObserver (object : nat) (callback : t -> t) (b : t) : t :=
  if decide (object ∈ pathObservers b) then
    let b1 := callback (with_suspended ({[object]} ∪ suspended b) b) in
    with_suspended (suspended b1 ∖ {[object]}) b1
  else callback b.

(** [ref.set(value)]: the write is issued and, as Firebase triggers local
    updates synchronously, the [value] listener of the binding runs before
    the call returns. *)
Definition ref_set (value : jsval) (b : t) : t :=
  let b1 := with_writes (writes b ++ [value]) b in
  if _observingRef b1 then _refDidChange (Snapshot (ref b1) value) b1 else b1.

(** [_sync]. *)
Definition _sync (object : nat) (s : option snapshot) (b : t) : completion t :=
  if isDestroyed (heap b object) then Normal b
  else
    let direction := _directionMap b !! object in
    let b1 := with_directionMap (delete object (_directionMap b)) b in
    match direction with
    | Some pull =>
        match createValueFromSnapshot s with
        | None => Throw (TypeError "Cannot read property 'val' of undefined") b1
        | Some value =>
            if _oneWay b1 then Normal (trySet object value b1)
            else Normal (_suspendObserver object (trySet object value) b1)
        end
    | Some push =>
        let value := getFirebaseValue (prop (heap b1 object)) in
        let b2 := with_ignoreRefChanges true b1 in
        let b3 := ref_set value b2 in
        Normal (with_ignoreRefChanges false b3)
    | None => Normal b1
    end.

(** The run loop flushing its [sync] queue: the calls of [_sync] run in the
    order they were scheduled, among them those scheduled meanwhile; an
    exception leaves the loop. [None] stands for a loop cut short by
    [fuel]. *)
Fixpoint flush (fuel : nat) (b : t) : option (completion t) :=
  match syncQueue b with
  | [] => Some (Normal b)
  | (object, s) :: rest =>
      match fuel with
      | 0 => None
      | S fuel' =>
          match _sync object s (with_syncQueue rest b) with
          | Throw e b' => Some (Throw e b')
          | Normal b' => flush fuel' b'
          end
      end
  end.

End Ember.

(** The calls by which objects come and go: [connect] and [disconnect]. *)
Inductive link :=
  | Connect (object : nat)
  | Disconnect (object : nat).

Definition relink (b : t) (k : link) : t :=
  match k with
  | Connect object => connect object b
  | Disconnect object => disconnect object b
  end.

(** A binding whose path observers are those [connect] registers: none when
    the binding is one-way. *)
Definition observers_registered (b : t) : Prop :=
  _oneWay b = true -> pathObservers b = ∅.

(** A one-way binding with nothing to push: no path observer and no pending
    [push]. *)
Definition one_way (b : t) : Prop :=
  _oneWay b = true /\ pathObservers b = ∅ /\
  forall object, _directionMap b !! object <> Some push.

End Binding.


(** * Properties *)

(** ** JavaScript arrays *)

Section JsArrayFacts.

Context {A : Type} `{EqDecision A}.

Implicit Types (x : A) (arr : JsArray.sparse A).

Lemma indexOf_range x arr :
  (JsArray.indexOf x arr = -1 \/
   0 <= JsArray.indexOf x arr < Z.of_nat (length arr))%Z.
Proof.
  induction arr as [|y rest IH]; simpl; [by left|].
  destruct (decide (y = Some x)); [right; lia|].
  destruct IH as [->|IH]; [by left|].
  destruct (Z.eqb_spec (JsArray.indexOf x rest) (-1)); [by left|right; lia].
Qed.

Lemma indexOf_absent x arr :
  JsArray.indexOf x arr = (-1)%Z <-> Some x ∉ arr.
Proof.
  induction arr as [|y rest IH]; simpl.
  - split; [intros _; apply not_elem_of_nil|done].
  - rewrite not_elem_of_cons. destruct (decide (y = Some x)) as [->|Hne].
    + split; [lia|intros [? _]; done].
    + destruct (Z.eqb_spec (JsArray.indexOf x rest) (-1)) as [E|E].
      * split; [intros _; split; [congruence|by apply IH]|done].
      * pose proof (indexOf_range x rest).
        split; [lia|intros [_ ?]; exfalso; apply E; by apply IH].
Qed.

Lemma indexOf_first x arr (i : nat) :
  arr !! i = Some (Some x) ->
  (forall j, j < i -> arr !! j <> Some (Some x)) ->
  JsArray.indexOf x arr = Z.of_nat i.
Proof.
  revert i; induction arr as [|y rest IH]; intros i Hi Hfirst; [done|].
  simpl. destruct (decide (y = Some x)) as [->|Hne].
  - destruct i as [|i]; [done|]. exfalso. apply (Hfirst 0); [lia|done].
  - destruct i as [|i]; [simpl in Hi; congruence|].
    rewrite (IH i); [|done|].
    + destruct (Z.eqb_spec (Z.of_nat i) (-1)); lia.
    + intros j Hj. apply (Hfirst (S j)). lia.
Qed.

Lemma indexOf_lookup x arr :
  (0 <= JsArray.indexOf x arr)%Z ->
  arr !! Z.to_nat (JsArray.indexOf x arr) = Some (Some x).
Proof.
  induction arr as [|y rest IH]; simpl; [lia|].
  destruct (decide (y = Some x)) as [->|Hne]; [done|].
  destruct (Z.eqb_spec (JsArray.indexOf x rest) (-1)) as [E|E]; [lia|].
  intros _. pose proof (indexOf_range x rest).
  replace (Z.to_nat (JsArray.indexOf x rest + 1))
    with (S (Z.to_nat (JsArray.indexOf x rest))) by lia.
  simpl. apply IH. lia.
Qed.

End JsArrayFacts.

Lemma splice_delete {A} (i : nat) (arr : list A) :
  JsArray.splice (Z.of_nat i) 1 [] arr = delete i arr.
Proof.
  unfold JsArray.splice, JsArray.relative.
  destruct (Z.ltb_spec (Z.of_nat i) 0) as [|_]; [lia|].
  change (Z.max 1 0) with 1%Z. rewrite app_nil_l.
  destruct (decide (i < length arr)) as [Hlt|Hge].
  - replace (Z.min (Z.of_nat i) (Z.of_nat (length arr))) with (Z.of_nat i) by lia.
    replace (Z.min 1 (Z.of_nat (length arr) - Z.of_nat i)) with 1%Z by lia.
    rewrite Nat2Z.id. replace (Z.to_nat (Z.of_nat i + 1)) with (S i) by lia.
    by rewrite delete_take_drop.
  - replace (Z.min (Z.of_nat i) (Z.of_nat (length arr)))
      with (Z.of_nat (length arr)) by lia.
    replace (Z.min 1 (Z.of_nat (length arr) - Z.of_nat (length arr)))
      with 0%Z by lia.
    rewrite Z.add_0_r, Nat2Z.id, take_drop.
    revert i Hge. induction arr as [|a arr IH]; intros [|i] Hge; simpl in *;
      try done; try lia.
    f_equal. apply IH. lia.
Qed.

Lemma splice_insert {A} (i : nat) (x : A) (arr : list A) :
  i <= length arr ->
  JsArray.splice (Z.of_nat i) 0 [x] arr = take i arr ++ x :: drop i arr.
Proof.
  intros Hi. unfold JsArray.splice, JsArray.relative.
  destruct (Z.ltb_spec (Z.of_nat i) 0) as [|_]; [lia|].
  change (Z.max 0 0) with 0%Z.
  replace (Z.min (Z.of_nat i) (Z.of_nat (length arr))) with (Z.of_nat i) by lia.
  replace (Z.min 0 (Z.of_nat (length arr) - Z.of_nat i)) with 0%Z by lia.
  by rewrite Z.add_0_r, Nat2Z.id.
Qed.

(** ** Firebase.List *)

Section ListFacts.

Import FirebaseList.

Implicit Types (l : t) (s : snapshot).

(** The index resolved by [_indexAfter] is a position of [_names] or its
    length, so the assignment [_names[index] = name] never leaves a hole. *)
Lemma indexAfter_bounds l previousName :
  (0 <= _indexAfter l previousName <= Z.of_nat (length (names l)))%Z.
Proof.
  unfold _indexAfter. destruct previousName as [n|]; [|lia].
  destruct (truthy n); [|lia].
  pose proof (indexOf_range n (names l)). lia.
Qed.

(** C6: the index resolved for an add or change notification is 0 without a
    preceding name, 0 when the preceding name is not among the local names,
    and [indexOf(precedingName) + 1] when it is. Child names of a Firebase
    location are never empty; the test [childName ? ... : 0] takes the empty
    string, like [null], to 0. *)
Theorem indexAfter_resolution l (previousName : option string) :
  (previousName = None -> _indexAfter l previousName = 0%Z) /\
  (forall p, previousName = Some p -> Some p ∉ names l ->
     _indexAfter l previousName = 0%Z) /\
  (forall p (i : nat), previousName = Some p -> p <> "" ->
     names l !! i = Some (Some p) ->
     (forall j, j < i -> names l !! j <> Some (Some p)) ->
     JsArray.indexOf p (names l) = Z.of_nat i /\
     _indexAfter l previousName = (Z.of_nat i + 1)%Z) /\
  (previousName = Some "" -> _indexAfter l previousName = 0%Z).
Proof.
  split; [by intros ->|]. split; [|split].
  - intros p -> Hp. simpl. apply indexOf_absent in Hp. rewrite Hp.
    by destruct (truthy p).
  - intros p i -> Hne Hi Hfirst. simpl.
    rewrite (indexOf_first p (names l) i Hi Hfirst).
    split; [done|]. destruct p; [done|]. reflexivity.
  - by intros ->.
Qed.

Lemma indexAfter_resolution_witness :
  let l := {| baseRef := Some "https://example.firebaseio.com/list";
              content := [JNum 1; JNum 2];
              names := [Some "a"; Some "b"] |} in
  _indexAfter l None = 0%Z /\
  _indexAfter l (Some "z") = 0%Z /\
  _indexAfter l (Some "b") = 2%Z.
Proof.
  intros l.
  pose proof (indexAfter_resolution l None) as (H0 & _ & _ & _).
  pose proof (indexAfter_resolution l (Some "z")) as (_ & Hz & _ & _).
  pose proof (indexAfter_resolution l (Some "b")) as (_ & _ & Hb & _).
  split; [by apply H0|]. split.
  - apply (Hz "z"); [done|]. subst l; simpl.
    intros Hin. repeat (apply elem_of_cons in Hin as [Hin|Hin]; [congruence|]).
    by apply elem_of_nil in Hin.
  - refine (proj2 (Hb "b" 1 eq_refl _ eq_refl _)); [done|].
    intros [|j] Hj; [subst l; simpl; congruence|lia].
Defined.

(** C5: [childWasRemoved] deletes the slot of the name from [content] and
    [_names] when the name is known and changes nothing when it is not; with
    a name that occurs once, a second removal changes nothing more. *)
Theorem childWasRemoved_deletes_or_ignores s l :
  (Some (snap_name s) ∉ names l -> childWasRemoved s l = l) /\
  (forall i : nat,
     names l !! i = Some (Some (snap_name s)) ->
     (forall j, j < i -> names l !! j <> Some (Some (snap_name s))) ->
     childWasRemoved s l =
       {| baseRef := baseRef l;
          content := delete i (content l);
          names := delete i (names l) |}) /\
  ((forall i j : nat,
      names l !! i = Some (Some (snap_name s)) ->
      names l !! j = Some (Some (snap_name s)) -> i = j) ->
   childWasRemoved s (childWasRemoved s l) = childWasRemoved s l).
Proof.
  assert (Habsent : forall l', Some (snap_name s) ∉ names l' -> childWasRemoved s l' = l').
  { intros l' Hn. unfold childWasRemoved.
    apply indexOf_absent in Hn. by rewrite Hn. }
  assert (Hfound : forall i : nat,
     names l !! i = Some (Some (snap_name s)) ->
     (forall j, j < i -> names l !! j <> Some (Some (snap_name s))) ->
     childWasRemoved s l =
       {| baseRef := baseRef l;
          content := delete i (content l);
          names := delete i (names l) |}).
  { intros i Hi Hfirst. unfold childWasRemoved.
    rewrite (indexOf_first _ _ i Hi Hfirst).
    destruct (Z.eqb_spec (Z.of_nat i) (-1)); [lia|].
    by rewrite !splice_delete. }
  split; [apply Habsent|]. split; [apply Hfound|].
  intros Huniq.
  destruct (decide (Some (snap_name s) ∈ names l)) as [Hin|Hout].
  - pose proof (indexOf_range (snap_name s) (names l)) as [E|Hr].
    { apply indexOf_absent in E. done. }
    set (i := Z.to_nat (JsArray.indexOf (snap_name s) (names l))).
    assert (Hi : names l !! i = Some (Some (snap_name s))).
    { apply indexOf_lookup. lia. }
    assert (Hfirst : forall j, j < i -> names l !! j <> Some (Some (snap_name s))).
    { intros j Hj Hjn. specialize (Huniq _ _ Hi Hjn). lia. }
    rewrite (Hfound i Hi Hfirst). apply Habsent. simpl.
    intros Hin'. apply list_elem_of_lookup in Hin' as [k Hk].
    destruct (decide (k < i)) as [Hlt|Hge].
    + rewrite list_lookup_delete_lt in Hk by done. specialize (Huniq _ _ Hi Hk). lia.
    + rewrite list_lookup_delete_ge in Hk by lia. specialize (Huniq _ _ Hi Hk). lia.
  - by rewrite !(Habsent l Hout).
Qed.

Lemma childWasRemoved_deletes_or_ignores_witness :
  let l := {| baseRef := Some "https://example.firebaseio.com/list";
              content := [JNum 1; JNum 2];
              names := [Some "a"; Some "b"] |} in
  childWasRemoved (Snapshot "z" JNull) l = l /\
  childWasRemoved (Snapshot "b" JNull) l =
    {| baseRef := baseRef l; content := [JNum 1]; names := [Some "a"] |} /\
  childWasRemoved (Snapshot "b" JNull) (childWasRemoved (Snapshot "b" JNull) l) =
    childWasRemoved (Snapshot "b" JNull) l.
Proof.
  intros l.
  pose proof (childWasRemoved_deletes_or_ignores (Snapshot "z" JNull) l) as (Hz & _ & _).
  pose proof (childWasRemoved_deletes_or_ignores (Snapshot "b" JNull) l) as (_ & Hb & Hbb).
  split; [|split].
  - apply Hz. subst l; simpl. intros Hin.
    repeat (apply elem_of_cons in Hin as [Hin|Hin]; [congruence|]).
    by apply elem_of_nil in Hin.
  - apply (Hb 1); [done|]. intros [|j] Hj; [subst l; simpl; congruence|lia].
  - apply Hbb. subst l; simpl.
    intros [|[|[|i]]] [|[|[|j]]]; simpl; congruence.
Defined.

Section WithProxy.

Variable has_property : string -> bool.

(** When the resolved index lies inside [_names], the assignment
    [_names[index] = name] overwrites the name stored there, while [content]
    grows by one. *)
Lemma childWasAdded_inside s previousName l :
  (_indexAfter l previousName < Z.of_nat (length (names l)))%Z ->
  names (childWasAdded has_property s previousName l) =
    <[Z.to_nat (_indexAfter l previousName) := Some (snap_name s)]> (names l).
Proof.
  intros Hlt. pose proof (indexAfter_bounds l previousName) as Hb.
  unfold childWasAdded; simpl. unfold JsArray.store.
  destruct (Z.ltb_spec (_indexAfter l previousName) 0); [lia|].
  destruct (decide (Z.to_nat (_indexAfter l previousName) < length (names l)));
    [done|lia].
Qed.

(** When the resolved index is the length of [_names], the name is added at
    the end. *)
Lemma childWasAdded_at_end s previousName l :
  _indexAfter l previousName = Z.of_nat (length (names l)) ->
  names (childWasAdded has_property s previousName l) = names l ++ [Some (snap_name s)].
Proof.
  intros He. unfold childWasAdded; simpl. unfold JsArray.store. rewrite He.
  destruct (Z.ltb_spec (Z.of_nat (length (names l))) 0); [lia|].
  rewrite Nat2Z.id.
  destruct (decide (length (names l) < length (names l))); [lia|].
  by rewrite Nat.sub_diag.
Qed.

(** No handler leaves a hole in [_names]. *)
Lemma handle_names_dense e l :
  Forall is_Some (names l) -> Forall is_Some (names (handle has_property e l)).
Proof.
  assert (Hstore : forall i n (arr : JsArray.sparse string),
            (0 <= i <= Z.of_nat (length arr))%Z ->
            Forall is_Some arr -> Forall is_Some (JsArray.store i n arr)).
  { intros i n arr Hi Harr. unfold JsArray.store.
    destruct (Z.ltb_spec i 0); [lia|].
    destruct (decide (Z.to_nat i < length arr)).
    - apply Forall_insert; [done|by eexists].
    - replace (Z.to_nat i - length arr) with 0 by lia. simpl.
      apply Forall_app; split; [done|]. by repeat constructor. }
  assert (Hsplice : forall i (arr : JsArray.sparse string),
            Forall is_Some arr -> Forall is_Some (JsArray.splice i 1 [] arr)).
  { intros i arr Harr. unfold JsArray.splice. simpl.
    apply Forall_app; split; [by apply Forall_take|by apply Forall_drop]. }
  assert (Hrem : forall s l', Forall is_Some (names l') ->
            Forall is_Some (names (childWasRemoved s l'))).
  { intros s l' Hl'. unfold childWasRemoved.
    destruct (_ =? _)%Z; [done|]. by apply Hsplice. }
  intros Hl. destruct e as [s p|s p|s|s p]; simpl.
  - apply Hstore; [apply indexAfter_bounds|done].
  - apply Hstore; [apply indexAfter_bounds|done].
  - by apply Hrem.
  - unfold childWasMoved. simpl. apply Hstore; [apply indexAfter_bounds|by apply Hrem].
Qed.

(** C8: from an empty list bound to a reference, [added(a,1,null)],
    [added(b,2,"a")], [moved(a,"b")] and [removed(b)] give the contents [1],
    [1,2], [2,1] and [1], with the names [a], [a,b], [b,a] and [a]. The
    names [a] and [b] are not properties of the proxy object. *)
Theorem reconciliation_scenario (ref : location) :
  has_property "a" = false ->
  has_property "b" = false ->
  let a := Snapshot "a" (JNum 1) in
  let b := Snapshot "b" (JNum 2) in
  let l0 := _resetContent {| baseRef := Some ref; content := []; names := [] |} in
  let l1 := handle has_property (child_added a None) l0 in
  let l2 := handle has_property (child_added b (Some "a")) l1 in
  let l3 := handle has_property (child_moved a (Some "b")) l2 in
  let l4 := handle has_property (child_removed b) l3 in
  (content l1 = [JNum 1] /\ names l1 = [Some "a"]) /\
  (content l2 = [JNum 1; JNum 2] /\ names l2 = [Some "a"; Some "b"]) /\
  (content l3 = [JNum 2; JNum 1] /\ names l3 = [Some "b"; Some "a"]) /\
  (content l4 = [JNum 1] /\ names l4 = [Some "a"]).
Proof.
  intros Ha Hb a b l0 l1 l2 l3 l4.
  subst l4 l3 l2 l1 l0 a b.
  unfold handle, childWasMoved, childWasRemoved, childWasAdded,
    createValueFromSnapshot, getSnapshotValue; simpl.
  rewrite Ha, Hb. vm_compute. done.
Qed.

End WithProxy.

Lemma reconciliation_scenario_witness :
  let a := Snapshot "a" (JNum 1) in
  let b := Snapshot "b" (JNum 2) in
  let l0 := {| baseRef := Some "https://example.firebaseio.com/list";
               content := []; names := [] |} in
  let l1 := handle declared (child_added a None) l0 in
  let l2 := handle declared (child_added b (Some "a")) l1 in
  let l3 := handle declared (child_moved a (Some "b")) l2 in
  let l4 := handle declared (child_removed b) l3 in
  (content l1 = [JNum 1] /\ names l1 = [Some "a"]) /\
  (content l2 = [JNum 1; JNum 2] /\ names l2 = [Some "a"; Some "b"]) /\
  (content l3 = [JNum 2; JNum 1] /\ names l3 = [Some "b"; Some "a"]) /\
  (content l4 = [JNum 1] /\ names l4 = [Some "a"]).
Proof.
  apply (reconciliation_scenario declared "https://example.firebaseio.com/list");
    reflexivity.
Defined.

(** C1: [childWasAdded] after a known preceding name that is not the last
    one. With the names [a, b] and the values [1, 2], adding [c] after [a]
    resolves the index 1 and inserts the value into [content], which grows to
    three elements; the name is assigned to [_names[1]], so [_names] keeps its
    length and [b] is lost. *)
Theorem childWasAdded_overwrites_following_name (has_property : string -> bool) :
  let l := {| baseRef := Some "https://example.firebaseio.com/list";
              content := [JNum 1; JNum 2];
              names := [Some "a"; Some "b"] |} in
  let c := Snapshot "c" (JNum 3) in
  let l' := childWasAdded has_property c (Some "a") l in
  _indexAfter l (Some "a") = 1%Z /\
  content l' = [JNum 1; createValueFromSnapshot has_property c; JNum 2] /\
  names l' = [Some "a"; Some "c"] /\
  length (content l') = 3 /\
  length (names l') = 2 /\
  Some "b" ∉ names l'.
Proof.
  intros l c l'. repeat split.
  intros Hin. subst l'; simpl in Hin. vm_compute in Hin.
  repeat (apply elem_of_cons in Hin as [Hin|Hin]; [congruence|]).
  by apply elem_of_nil in Hin.
Qed.

Lemma forEach_append {X Y} (f : X -> Y) (xs : list X) (log : list Y) :
  JsArray.forEach xs (fun x (acc : list Y) => acc ++ [f x]) log = log ++ (f <$> xs).
Proof.
  unfold JsArray.forEach. revert log.
  induction xs as [|x xs IH]; intros log; simpl; [by rewrite app_nil_r|].
  rewrite IH. by rewrite <- app_assoc.
Qed.

Lemma slice_take_drop {X} (i a : nat) (arr : list X) :
  JsArray.slice (Z.of_nat i) (Z.of_nat i + Z.of_nat a) arr = take a (drop i arr).
Proof.
  unfold JsArray.slice, JsArray.relative.
  destruct (Z.ltb_spec (Z.of_nat i) 0) as [|_]; [lia|].
  destruct (Z.ltb_spec (Z.of_nat i + Z.of_nat a) 0) as [|_]; [lia|].
  destruct (decide (length arr <= i)) as [Hout|Hin].
  - replace (Z.min (Z.of_nat i) (Z.of_nat (length arr)))
      with (Z.of_nat (length arr)) by lia.
    rewrite Nat2Z.id, !drop_ge by lia. by rewrite !take_nil.
  - replace (Z.min (Z.of_nat i) (Z.of_nat (length arr))) with (Z.of_nat i) by lia.
    rewrite Nat2Z.id.
    destruct (decide (i + a <= length arr)) as [Hfit|Hover].
    + f_equal. lia.
    + replace (Z.min (Z.of_nat i + Z.of_nat a) (Z.of_nat (length arr)))
        with (Z.of_nat (length arr)) by lia.
      rewrite !take_ge; [done| |]; rewrite length_drop; lia.
Qed.

Lemma present_dense {X} (xs : list X) : JsArray.present (Some <$> xs) = xs.
Proof.
  unfold JsArray.present. induction xs as [|x xs IH]; [done|].
  cbn. f_equal. exact IH.
Qed.

(** The calls of [replaceContent] on a bound list, for any arguments: the
    removals of the names in the slice, then one [push().set] per object. *)
Lemma replaceContent_calls l ref (index amount : Z) objects log :
  baseRef l = Some ref ->
  replaceContent index amount objects (l, log) =
    Normal (l, log
               ++ (ChildRemove ref <$>
                     JsArray.present (JsArray.slice index (index + amount) (names l)))
               ++ ((fun o => PushSet ref (getFirebaseValue o)) <$> objects)).
Proof.
  intros Href. unfold replaceContent. rewrite Href.
  rewrite (forEach_append (ChildRemove ref)).
  rewrite (forEach_append (fun o => PushSet ref (getFirebaseValue o))).
  by rewrite <- app_assoc.
Qed.

(** C4: on a list without a reference [replaceContent] throws before any call
    on a reference is made; the log of calls and the list are as before. *)
Theorem replaceContent_unbound l (index amount : Z) objects log :
  baseRef l = None ->
  exists msg,
    replaceContent index amount objects (l, log) = Throw (Error msg) (l, log).
Proof.
  intros Href. eexists. unfold replaceContent. by rewrite Href.
Qed.

Lemma replaceContent_unbound_witness :
  exists msg,
    replaceContent 0 1 [JNum 7]
      ({| baseRef := None; content := [JNum 1]; names := [Some "a"] |}, []) =
    Throw (Error msg)
      ({| baseRef := None; content := [JNum 1]; names := [Some "a"] |}, []).
Proof.
  apply (replaceContent_unbound
           {| baseRef := None; content := [JNum 1]; names := [Some "a"] |}
           0 1 [JNum 7] []).
  reflexivity.
Defined.

(** On a bound list whose [_names] has no hole,
    [replaceContent(index, amount, objects)] calls
    [remove] once on the child named by each of the names at the positions
    [index] to [index + amount - 1] that exist, in order, then [push().set]
    once per object, in order. The calls that add the objects are the same
    whatever the index and the amount. *)
Theorem replaceContent_remote_calls l ref (ns : list string)
    (index amount : nat) objects log :
  baseRef l = Some ref ->
  names l = Some <$> ns ->
  let removals := Nat.min amount (length ns - index) in
  exists ops,
    replaceContent (Z.of_nat index) (Z.of_nat amount) objects (l, log) =
      Normal (l, log ++ ops) /\
    length ops = removals + length objects /\
    (index + amount <= length ns -> removals = amount) /\
    (forall i, i < removals -> ops !! i = ChildRemove ref <$> ns !! (index + i)) /\
    (forall j, ops !! (removals + j) =
               (fun o => PushSet ref (getFirebaseValue o)) <$> objects !! j) /\
    (forall index' amount' : Z, exists removed,
       replaceContent index' amount' objects (l, log) =
         Normal (l, log ++ (ChildRemove ref <$> removed)
                        ++ ((fun o => PushSet ref (getFirebaseValue o)) <$> objects))).
Proof.
  intros Href Hns removals.
  exists ((ChildRemove ref <$> take amount (drop index ns))
          ++ ((fun o => PushSet ref (getFirebaseValue o)) <$> objects)).
  assert (Hlen : length (ChildRemove ref <$> take amount (drop index ns)) = removals).
  { by rewrite length_fmap, length_take, length_drop. }
  split; [|split; [|split; [|split; [|split]]]].
  - rewrite (replaceContent_calls l ref _ _ _ _ Href), Hns.
    rewrite slice_take_drop.
    by rewrite <- fmap_drop, <- fmap_take, present_dense.
  - rewrite length_app, Hlen, length_fmap. done.
  - subst removals. lia.
  - intros i Hi. rewrite lookup_app_l by lia.
    rewrite list_lookup_fmap, lookup_take_lt by (subst removals; lia).
    by rewrite lookup_drop.
  - intros j. rewrite lookup_app_r by lia. rewrite Hlen.
    replace (removals + j - removals) with j by lia. by rewrite list_lookup_fmap.
  - intros index' amount'. eexists. by apply replaceContent_calls.
Qed.

Lemma replaceContent_remote_calls_witness :
  exists ops,
    replaceContent 1 2 [JNum 7; JModel (JNum 8)]
      ({| baseRef := Some "https://example.firebaseio.com/list";
          content := [JNum 1; JNum 2; JNum 3];
          names := [Some "a"; Some "b"; Some "c"] |}, []) =
      Normal ({| baseRef := Some "https://example.firebaseio.com/list";
                 content := [JNum 1; JNum 2; JNum 3];
                 names := [Some "a"; Some "b"; Some "c"] |}, ops) /\
    ops = [ChildRemove "https://example.firebaseio.com/list" "b";
           ChildRemove "https://example.firebaseio.com/list" "c";
           PushSet "https://example.firebaseio.com/list" (JNum 7);
           PushSet "https://example.firebaseio.com/list" (JNum 8)].
Proof.
  destruct (replaceContent_remote_calls
              {| baseRef := Some "https://example.firebaseio.com/list";
                 content := [JNum 1; JNum 2; JNum 3];
                 names := [Some "a"; Some "b"; Some "c"] |}
              "https://example.firebaseio.com/list" ["a"; "b"; "c"] 1 2
              [JNum 7; JModel (JNum 8)] [] eq_refl eq_refl)
    as (ops & Hrun & Hlen & _ & Hrem & Hadd & _).
  exists ops. split; [exact Hrun|].
  pose proof (Hrem 0 ltac:(simpl; lia)) as H0.
  pose proof (Hrem 1 ltac:(simpl; lia)) as H1.
  pose proof (Hadd 0) as H2. pose proof (Hadd 1) as H3.
  simpl in *.
  destruct ops as [|o0 [|o1 [|o2 [|o3 [|]]]]]; simpl in *; try lia.
  congruence.
Defined.

(** C7: [replaceContent] takes the names to remove from [_names], and
    [childWasAdded] leaves [_names] shorter than [content] when a child
    arrives in front of a known one. After the children a, b behind a and
    c behind a, [content] holds three values and [_names] the two names a
    and c: replacing the three elements from index 0 removes two children
    only, b stays on the server, and replacing the one element at index 2
    removes none. *)
Theorem replaceContent_misses_overwritten_name (has_property : string -> bool) :
  let ref := "https://example.firebaseio.com/list" in
  let a := Snapshot "a" (JNum 1) in
  let b := Snapshot "b" (JNum 2) in
  let c := Snapshot "c" (JNum 3) in
  let l := deliver has_property
             [child_added a None; child_added b (Some "a"); child_added c (Some "a")]
             {| baseRef := Some ref; content := []; names := [] |} in
  content l = [createValueFromSnapshot has_property a;
               createValueFromSnapshot has_property c;
               createValueFromSnapshot has_property b] /\
  names l = [Some "a"; Some "c"] /\
  replaceContent 0 3 [] (l, []) =
    Normal (l, [ChildRemove ref "a"; ChildRemove ref "c"]) /\
  replaceContent 2 1 [] (l, []) = Normal (l, []).
Proof.
  intros ref a b c l. repeat split.
Qed.

End ListFacts.

(** ** Firebase.Array *)

Section ArrayFacts.

Import FirebaseArray.

Implicit Types (l : t) (s : snapshot) (e : event).

Lemma store_elem_of {X} (i : Z) (x : X) (arr : JsArray.sparse X) (y : option X) :
  y ∈ JsArray.store i x arr -> y ∈ arr \/ y = Some x \/ y = None.
Proof.
  unfold JsArray.store. destruct (i <? 0)%Z; [by left|].
  destruct (decide (Z.to_nat i < length arr)) as [Hlt|Hge].
  - intros Hy. apply list_elem_of_lookup in Hy as [k Hk].
    destruct (decide (Z.to_nat i = k)) as [<-|Hne].
    + rewrite list_lookup_insert_eq in Hk by done. right; left. congruence.
    + rewrite list_lookup_insert_ne in Hk by done.
      left. apply list_elem_of_lookup. by exists k.
  - rewrite !elem_of_app. intros [Hy|[Hy|Hy]]; [by left| |].
    + apply elem_of_replicate in Hy as [-> _]. by right; right.
    + apply list_elem_of_singleton in Hy. by right; left.
Qed.

Lemma splice_elem_of {X} (i d : Z) (arr : list X) (y : X) :
  y ∈ JsArray.splice i d [] arr -> y ∈ arr.
Proof.
  unfold JsArray.splice. rewrite app_nil_l, elem_of_app.
  intros [Hy|Hy];
    [eapply elem_of_sublist, sublist_take|eapply elem_of_sublist, sublist_drop];
    exact Hy.
Qed.

(** No handler puts the marker into [_names]. *)
Lemma handle_keeps_marker_out e l :
  Some marker ∉ names l -> Some marker ∉ names (final (handle e l)).
Proof.
  assert (Hadd : forall s p l', Some marker ∉ names l' ->
            Some marker ∉ names (final (childWasAdded s p l'))).
  { intros s p l' Hl'. unfold childWasAdded.
    destruct (String.eqb_spec (snap_name s) marker) as [|Hne]; [done|].
    destruct (insertAt _ _ _); [|done]. simpl.
    intros Hin. apply store_elem_of in Hin as [Hin|[Hin|Hin]];
      [done|congruence|done]. }
  assert (Hrem : forall s l', Some marker ∉ names l' ->
            Some marker ∉ names (final (childWasRemoved s l'))).
  { intros s l' Hl'. unfold childWasRemoved.
    destruct (String.eqb_spec (snap_name s) marker) as [|Hne]; [done|].
    destruct (_ =? _)%Z; [done|]. destruct (removeAt _ _); [|done]. simpl.
    intros Hin. by apply splice_elem_of in Hin. }
  intros Hl. destruct e as [s p|s p|s|s p]; simpl.
  - by apply Hadd.
  - unfold childWasChanged.
    destruct (String.eqb_spec (snap_name s) marker) as [|Hne]; [done|]. simpl.
    intros Hin. apply store_elem_of in Hin as [Hin|[Hin|Hin]];
      [done|congruence|done].
  - by apply Hrem.
  - unfold childWasMoved.
    destruct (String.eqb_spec (snap_name s) marker) as [|Hne]; [done|].
    specialize (Hrem s l Hl).
    destruct (childWasRemoved s l) as [l'|err l']; simpl in *; [|done].
    by apply Hadd.
Qed.

Lemma deliver_keeps_marker_out es l :
  Some marker ∉ names l -> Some marker ∉ names (final (deliver es l)).
Proof.
  revert l. induction es as [|e es IH]; intros l Hl; [done|]. simpl.
  pose proof (handle_keeps_marker_out e l Hl) as He.
  destruct (handle e l) as [l'|err l']; simpl in *; [by apply IH|done].
Qed.

(** A child event named [_isArray] leaves [content] and [_names] as they
    are, whatever its kind; from a list free of the marker no delivery of
    events puts the marker into [_names]; and the events named [_isArray]
    can be left out of a delivery without any difference to its outcome: the
    marker takes no slot of either array. *)
Theorem marker_events_skipped :
  (forall e l, event_name e = marker -> handle e l = Normal l) /\
  (forall es l, Some marker ∉ names l ->
     Some marker ∉ names (final (deliver es l))) /\
  (forall es, Some marker ∉ names (final (deliver es _resetContent))) /\
  (forall es l,
     deliver es l = deliver (filter (fun e => event_name e <> marker) es) l).
Proof.
  assert (Hskip : forall e l, event_name e = marker -> handle e l = Normal l).
  { intros [s p|s p|s|s p] l; simpl; intros Hname;
      unfold childWasAdded, childWasChanged, childWasRemoved, childWasMoved;
      by rewrite Hname, String.eqb_refl. }
  split; [exact Hskip|]. split; [apply deliver_keeps_marker_out|]. split.
  - intros es. apply deliver_keeps_marker_out. simpl. apply not_elem_of_nil.
  - intros es. induction es as [|e es IH]; intros l; [done|].
    destruct (decide (event_name e = marker)) as [Heq|Hne].
    + rewrite filter_cons_False by (intros Hn; by apply Hn).
      simpl. rewrite (Hskip e l Heq). apply IH.
    + rewrite filter_cons_True by done. simpl.
      destruct (handle e l); [apply IH|done].
Qed.

Lemma marker_events_skipped_witness :
  let flag := Snapshot "_isArray" (JBool true) false false
                "https://example.firebaseio.com/list/_isArray" in
  let x := Snapshot "x" (JNum 1) false false
             "https://example.firebaseio.com/list/x" in
  let l := {| content := [Plain (JNum 1)]; names := [Some "x"] |} in
  handle (child_added flag (Some "x")) l = Normal l /\
  handle (child_changed flag (Some "x")) l = Normal l /\
  handle (child_removed flag) l = Normal l /\
  handle (child_moved flag None) l = Normal l /\
  (Some marker ∉ names l) /\
  deliver [child_added x None; child_added flag (Some "x")] _resetContent = Normal l.
Proof.
  intros flag x l.
  destruct marker_events_skipped as (Hskip & Hout & Hreset & Hfilter).
  split; [by apply Hskip|]. split; [by apply Hskip|].
  split; [by apply Hskip|]. split; [by apply Hskip|]. split.
  - apply (Hreset [child_added x None]).
  - rewrite Hfilter. reflexivity.
Defined.

(** C9: the guard of the handlers looks at the name of the snapshot only. An
    event whose previous sibling is [_isArray] takes its index from
    [_names], where the marker never is, so that the index is 0 whatever the
    list holds: the marker counts as the front of the list. A child that
    follows the marker on the server, as one pushed with a priority does,
    lands in front of the children it follows; with the marker away the same
    child lands behind them. *)
Theorem marker_as_previous_sibling_resolves_to_front :
  (forall es, _indexAfter (final (deliver es _resetContent)) (Some marker) = 0%Z) /\
  (let at_ (n : string) := "https://example.firebaseio.com/list/" +:+ n in
   let a := Snapshot "-Ja" (JNum 1) false false (at_ "-Ja") in
   let b := Snapshot "-Jb" (JNum 2) false false (at_ "-Jb") in
   let flag := Snapshot "_isArray" (JBool true) false false (at_ "_isArray") in
   let c := Snapshot "-Jc" (JNum 3) false false (at_ "-Jc") in
   deliver [child_added a None; child_added b (Some "-Ja");
            child_added flag (Some "-Jb"); child_added c (Some "_isArray")]
     _resetContent =
     Normal {| content := [Plain (JNum 3); Plain (JNum 1); Plain (JNum 2)];
               names := [Some "-Jc"; Some "-Jb"] |} /\
   deliver [child_added a None; child_added b (Some "-Ja");
            child_added c (Some "-Jb")]
     _resetContent =
     Normal {| content := [Plain (JNum 1); Plain (JNum 2); Plain (JNum 3)];
               names := [Some "-Ja"; Some "-Jb"; Some "-Jc"] |}).
Proof.
  split.
  - intros es. unfold _indexAfter. change (truthy marker) with true. cbn match.
    assert (Hout : Some marker ∉ names (final (deliver es _resetContent))).
    { apply deliver_keeps_marker_out. simpl. apply not_elem_of_nil. }
    apply indexOf_absent in Hout. rewrite Hout. done.
  - split; reflexivity.
Qed.

End ArrayFacts.

(** ** Firebase.Binding *)

Section BindingFacts.

Import Binding.

Variable changed : jsval -> jsval -> bool.

Implicit Types (b : t) (object : nat) (snap : snapshot).

Lemma scheduleSync_pull_lookup object x (s : option snapshot) b :
  _directionMap (_scheduleSync pull x s b) !! object =
    if decide (x = object) then Some pull else _directionMap b !! object.
Proof.
  unfold _scheduleSync.
  destruct (_directionMap b !! x) as [d|] eqn:Hx; simpl.
  - destruct (decide (Some d = Some push /\ pull = pull)) as [[Hd _]|Hn]; simpl.
    + destruct (decide (x = object)) as [->|Hne];
        [by rewrite lookup_insert_eq|by rewrite lookup_insert_ne].
    + destruct (decide (x = object)) as [->|Hne]; [|done].
      rewrite Hx. destruct d; [|done]. exfalso. by apply Hn.
  - destruct (decide (None = Some push /\ pull = pull)) as [[? _]|_]; [done|].
    simpl. destruct (decide (x = object)) as [->|Hne];
      [by rewrite lookup_insert_eq|by rewrite lookup_insert_ne].
Qed.

(** A change of the reference that is not ignored leaves a pull pending for
    every connected object. *)
Lemma refDidChange_schedules_pull snap object b :
  _ignoreRefChanges b = false ->
  object ∈ _objects b ->
  _directionMap (_refDidChange snap b) !! object = Some pull.
Proof.
  intros Hig Hin. unfold _refDidChange. rewrite Hig.
  assert (Hfold : forall objs b0,
            object ∈ objs \/ _directionMap b0 !! object = Some pull ->
            _directionMap
              (JsArray.forEach objs (fun x => _scheduleSync pull x (Some snap)) b0)
              !! object = Some pull).
  { unfold JsArray.forEach.
    induction objs as [|x objs IH]; intros b0 Hor; simpl.
    - destruct Hor as [Hnil|Hp]; [by apply elem_of_nil in Hnil|done].
    - apply IH. rewrite scheduleSync_pull_lookup.
      destruct (decide (x = object)) as [->|Hne]; [by right|].
      destruct Hor as [Hc|Hp]; [|by right].
      apply elem_of_cons in Hc as [->|Hc]; [done|by left]. }
  apply Hfold. by left.
Qed.

(** A push and then a pull for one object with nothing pending: one call of
    [_sync] is queued, with the arguments of the push, and the direction
    becomes [pull]. *)
Lemma schedule_push_then_pull object snap b :
  _directionMap b !! object = None ->
  _scheduleSync pull object (Some snap) (_scheduleSync push object None b) =
    with_directionMap (<[object := pull]> (<[object := push]> (_directionMap b)))
      (with_syncQueue (syncQueue b ++ [(object, None)]) b).
Proof.
  intros Hnone. unfold _scheduleSync at 2. rewrite Hnone. simpl.
  destruct (decide (None = Some push /\ push = pull)) as [[? _]|_]; [done|].
  unfold _scheduleSync. simpl. rewrite lookup_insert_eq.
  destruct (decide (Some push = Some push /\ pull = pull)) as [_|Hn];
    [done|by exfalso; apply Hn].
Qed.

(** A pull and then a push: one call of [_sync] is queued, with the snapshot
    of the pull, and the direction stays [pull]. *)
Lemma schedule_pull_then_push object snap b :
  _directionMap b !! object = None ->
  _scheduleSync push object None (_scheduleSync pull object (Some snap) b) =
    with_directionMap (<[object := pull]> (_directionMap b))
      (with_syncQueue (syncQueue b ++ [(object, Some snap)]) b).
Proof.
  intros Hnone. unfold _scheduleSync at 2. rewrite Hnone. simpl.
  destruct (decide (None = Some push /\ pull = pull)) as [[? _]|_]; [done|].
  unfold _scheduleSync. simpl. rewrite lookup_insert_eq.
  destruct (decide (Some pull = Some push /\ push = pull)) as [[? _]|_]; done.
Qed.

(** A pull without a snapshot throws once the pending direction is removed;
    nothing is written to the object. *)
Lemma sync_pull_without_snapshot object b :
  isDestroyed (heap b object) = false ->
  _directionMap b !! object = Some pull ->
  exists msg,
    _sync changed object None b =
      Throw (TypeError msg) (with_directionMap (delete object (_directionMap b)) b).
Proof.
  intros Hd Hp. eexists. unfold _sync. by rewrite Hd, Hp.
Qed.

(** A pull with its snapshot, on a two-way binding: the value of the snapshot
    reaches the property, no push is scheduled by that write and nothing is
    written to the reference. *)
Lemma sync_pull_with_snapshot object snap b :
  isDestroyed (heap b object) = false ->
  _directionMap b !! object = Some pull ->
  _oneWay b = false ->
  exists b',
    _sync changed object (Some snap) b = Normal b' /\
    writes b' = writes b /\
    syncQueue b' = syncQueue b /\
    _directionMap b' = delete object (_directionMap b) /\
    (changed (prop (heap b object)) (snap_val snap) = true ->
     prop (heap b' object) = snap_val snap) /\
    (changed (prop (heap b object)) (snap_val snap) = false -> heap b' = heap b).
Proof.
  intros Hd Hp Hway. unfold _sync. rewrite Hd, Hp. simpl. rewrite Hway.
  eexists; split; [reflexivity|].
  unfold _suspendObserver, trySet, set, getSnapshotValue. simpl. rewrite Hd.
  destruct (decide (object ∈ pathObservers b)) as [Hobs|Hobs]; simpl.
  - destruct (changed _ _) eqn:Hch; simpl.
    + destruct (decide (object ∈ pathObservers b /\ object ∉ {[object]} ∪ suspended b))
        as [[_ Hn]|_]; [exfalso; apply Hn; set_solver|].
      simpl. rewrite fn_lookup_insert. by repeat split.
    + by repeat split.
  - destruct (changed _ _) eqn:Hch; simpl.
    + destruct (decide (object ∈ pathObservers b /\ object ∉ suspended b))
        as [[? _]|_]; [done|].
      simpl. rewrite fn_lookup_insert. by repeat split.
    + by repeat split.
Qed.

(** C10: [_sync] for a destroyed object returns at once: the binding, the
    objects and the writes to the reference are as before, and the flush
    only drops the call from the queue. *)
Theorem sync_skips_destroyed object (s : option snapshot) b :
  isDestroyed (heap b object) = true ->
  _sync changed object s b = Normal b /\
  (forall rest fuel,
     syncQueue b = (object, s) :: rest ->
     flush changed (S fuel) b = flush changed fuel (with_syncQueue rest b)).
Proof.
  intros Hd. split; [unfold _sync; by rewrite Hd|].
  intros rest fuel Hq. simpl. rewrite Hq. unfold _sync. simpl. by rewrite Hd.
Qed.

(** C3: a push applied by [_sync] issues one write; the change of the
    reference that the write delivers before it returns finds
    [_ignoreRefChanges] set and schedules nothing; afterwards the flag is
    clear again, and a later change of the reference schedules a pull. A
    local write on a settled two-way binding is hence pushed once, and the
    queue is empty after the flush. *)
Theorem push_echo_ignored object b :
  isDestroyed (heap b object) = false ->
  _ignoreRefChanges b = false ->
  (forall s : option snapshot,
     _directionMap b !! object = Some push ->
     let value := getFirebaseValue (prop (heap b object)) in
     let during :=
       with_ignoreRefChanges true
         (with_directionMap (delete object (_directionMap b)) b) in
     let b' :=
       with_writes (writes b ++ [value])
         (with_directionMap (delete object (_directionMap b)) b) in
     ref_set value during = with_writes (writes b ++ [value]) during /\
     _sync changed object s b = Normal b' /\
     _ignoreRefChanges b' = false /\
     (forall snap, object ∈ _objects b ->
        _directionMap (_refDidChange snap b') !! object = Some pull)) /\
  (forall v : jsval,
     object ∈ pathObservers b ->
     object ∉ suspended b ->
     _directionMap b !! object = None ->
     syncQueue b = [] ->
     changed (prop (heap b object)) v = true ->
     exists b',
       flush changed 1 (set changed object v b) = Some (Normal b') /\
       writes b' = writes b ++ [getFirebaseValue v] /\
       syncQueue b' = [] /\
       _directionMap b' = _directionMap b /\
       forall fuel, flush changed fuel b' = Some (Normal b')).
Proof.
  intros Hd Hig.
  assert (Hecho : forall value b0,
            _ignoreRefChanges b0 = true ->
            ref_set value b0 = with_writes (writes b0 ++ [value]) b0).
  { intros value b0 Hb0. unfold ref_set, _refDidChange. simpl. rewrite Hb0.
    by destruct (_observingRef b0). }
  split.
  - intros s Hp value during b'.
    split; [exact (Hecho value during eq_refl)|]. split; [|split].
    + unfold _sync. rewrite Hd, Hp. simpl. rewrite Hecho by done.
      subst b'. destruct b; simpl in *. by rewrite Hig.
    + subst b'. by destruct b.
    + intros snap Hin. apply refDidChange_schedules_pull; subst b'; by destruct b.
  - intros v Hobs Hsus Hnone Hq Hch.
    unfold set. rewrite Hch. simpl.
    destruct (decide (object ∈ pathObservers b /\ object ∉ suspended b)) as [_|Hn];
      [|by exfalso; apply Hn].
    unfold _pathDidChange, _scheduleSync. simpl. rewrite Hnone. simpl.
    destruct (decide (None = Some push /\ push = pull)) as [[? _]|_]; [done|].
    rewrite Hq. simpl. unfold _sync. simpl.
    rewrite fn_lookup_insert. simpl. rewrite Hd, lookup_insert_eq.
    rewrite Hecho by done. simpl.
    eexists. split; [reflexivity|]. simpl.
    split; [done|]. split; [done|]. split.
    + rewrite delete_insert_eq. by apply delete_id.
    + intros [|fuel]; reflexivity.
Qed.

End BindingFacts.

Section BindingExamples.

Import Binding.

Lemma push_echo_ignored_witness :
  let b0 := connect 0 (create "https://example.firebaseio.com/value"
                         (fun _ => Owner false (JNum 1))) in
  exists b',
    flush (fun _ _ => true) 1 (set (fun _ _ => true) 0 (JNum 5) b0) =
      Some (Normal b') /\
    writes b' = [JNum 5] /\
    syncQueue b' = [] /\
    (forall fuel, flush (fun _ _ => true) fuel b' = Some (Normal b')).
Proof.
  intros b0.
  destruct (push_echo_ignored (fun _ _ => true) 0 b0 eq_refl eq_refl)
    as [_ Hlocal].
  destruct (Hlocal (JNum 5)) as (b' & Hrun & Hw & Hq & _ & Hagain);
    [subst b0; vm_compute; set_solver
    |subst b0; vm_compute; set_solver
    |reflexivity|reflexivity|reflexivity|].
  exists b'. by repeat split.
Defined.

Lemma sync_skips_destroyed_witness :
  let snap := Snapshot "value" (JNum 9) in
  let b := _refDidChange snap
             (connect 0 (create "https://example.firebaseio.com/value"
                           (fun _ => Owner true (JNum 1)))) in
  _sync (fun _ _ => true) 0 (Some snap) b = Normal b /\
  flush (fun _ _ => true) 1 b = Some (Normal (with_syncQueue [] b)).
Proof.
  intros snap b.
  destruct (sync_skips_destroyed (fun _ _ => true) 0 (Some snap) b eq_refl)
    as [Hsync Hflush].
  split; [exact Hsync|].
  rewrite (Hflush [] 0); reflexivity.
Defined.

(** A pull and then a push for one object of a two-way binding: at the flush
    the value of the snapshot is written to the property and nothing is
    written to the reference. *)
Lemma conflict_pull_then_push_applies_pull
    (changed : jsval -> jsval -> bool) object snap b :
  isDestroyed (heap b object) = false ->
  _oneWay b = false ->
  _directionMap b !! object = None ->
  syncQueue b = [] ->
  changed (prop (heap b object)) (snap_val snap) = true ->
  exists b',
    flush changed 1
      (_scheduleSync push object None (_scheduleSync pull object (Some snap) b)) =
      Some (Normal b') /\
    prop (heap b' object) = snap_val snap /\
    writes b' = writes b /\
    syncQueue b' = [] /\
    _directionMap b' !! object = None.
Proof.
  intros Hd Hway Hnone Hq Hch.
  rewrite schedule_pull_then_push by done. rewrite Hq. simpl.
  destruct (sync_pull_with_snapshot changed object snap
              (with_syncQueue []
                 (with_directionMap (<[object := pull]> (_directionMap b))
                    (with_syncQueue [(object, Some snap)] b))))
    as (b' & Hrun & Hw & Hqueue & Hdm & Hprop & _);
    [done|simpl; by rewrite lookup_insert_eq|done|].
  rewrite Hrun. exists b'. simpl in *. split; [by rewrite Hqueue|].
  split; [by apply Hprop|]. split; [done|]. split; [done|].
  rewrite Hdm. by rewrite lookup_delete_eq.
Qed.

(** A push and then a pull for one object that is not destroyed: the flush
    throws, and neither the objects nor the reference are written. *)
Lemma conflict_push_then_pull_loses_snapshot
    (changed : jsval -> jsval -> bool) object snap b :
  isDestroyed (heap b object) = false ->
  _directionMap b !! object = None ->
  syncQueue b = [] ->
  exists msg b',
    flush changed 1
      (_scheduleSync pull object (Some snap) (_scheduleSync push object None b)) =
      Some (Throw (TypeError msg) b') /\
    heap b' = heap b /\
    writes b' = writes b /\
    _directionMap b' !! object = None.
Proof.
  intros Hd Hnone Hq.
  rewrite schedule_push_then_pull by done. rewrite Hq. simpl.
  destruct (sync_pull_without_snapshot changed object
              (with_syncQueue []
                 (with_directionMap
                    (<[object := pull]> (<[object := push]> (_directionMap b)))
                    (with_syncQueue [(object, None)] b))))
    as (msg & Hrun); [done|simpl; by rewrite lookup_insert_eq|].
  rewrite Hrun. eexists _, _. split; [reflexivity|]. simpl.
  split; [done|]. split; [done|]. by rewrite lookup_delete_eq.
Qed.

(** C2: a push and then a pull for one object before the flush. The object
    holds 5 and is connected to a two-way binding; its path changes, then the
    reference reports 9. One call of [_sync] is queued and the direction is
    [pull], but the call was queued by the push, without a snapshot: at the
    flush the pending direction is removed and [_sync] throws a [TypeError];
    the property still holds 5. *)
Theorem conflict_push_then_pull_throws (changed : jsval -> jsval -> bool) :
  let b0 := connect 0 (create "https://example.firebaseio.com/value"
                         (fun _ => Owner false (JNum 5))) in
  let b1 := _pathDidChange 0 b0 in
  let b2 := _refDidChange (Snapshot "value" (JNum 9)) b1 in
  _directionMap b2 !! 0 = Some pull /\
  syncQueue b2 = [(0, None)] /\
  exists msg b3,
    flush changed 1 b2 = Some (Throw (TypeError msg) b3) /\
    prop (heap b3 0) = JNum 5 /\
    writes b3 = [] /\
    _directionMap b3 !! 0 = None.
Proof.
  intros b0 b1 b2. split; [reflexivity|]. split; [reflexivity|].
  eexists _, _. split; [reflexivity|]. by repeat split.
Qed.

End BindingExamples.

(** ** Firebase.List: lookups, sequences of events, serialization *)

Section ListCoverage.

Import FirebaseList.

Implicit Types (l : t) (s : snapshot).

Lemma store_lookup {X} (i : Z) (x : X) (arr : JsArray.sparse X) :
  (0 <= i)%Z -> JsArray.store i x arr !! Z.to_nat i = Some (Some x).
Proof.
  intros Hi. unfold JsArray.store.
  destruct (Z.ltb_spec i 0); [lia|].
  destruct (decide (Z.to_nat i < length arr)) as [Hlt|Hge].
  - by apply list_lookup_insert_eq.
  - rewrite lookup_app_r by lia. rewrite lookup_app_r; rewrite length_replicate; [|lia].
    by replace (Z.to_nat i - length arr - (Z.to_nat i - length arr)) with 0 by lia.
Qed.

Lemma store_length {X} (i : Z) (x : X) (arr : JsArray.sparse X) :
  (0 <= i <= Z.of_nat (length arr))%Z ->
  length (JsArray.store i x arr) =
    if decide (Z.to_nat i < length arr) then length arr else S (length arr).
Proof.
  intros Hi. unfold JsArray.store.
  destruct (Z.ltb_spec i 0); [lia|].
  destruct (decide (Z.to_nat i < length arr)) as [Hlt|Hge].
  - by rewrite length_insert.
  - rewrite !length_app, length_replicate. simpl. lia.
Qed.

Lemma splice_length {X} (i d : Z) (items : list X) (arr : list X) :
  (0 <= i)%Z -> (0 <= d)%Z ->
  length (JsArray.splice i d items arr) =
    length arr - Nat.min (Z.to_nat d) (length arr - Z.to_nat i) + length items.
Proof.
  intros Hi Hd. unfold JsArray.splice, JsArray.relative.
  destruct (Z.ltb_spec i 0); [lia|].
  rewrite !length_app, length_take, length_drop. lia.
Qed.

Lemma hasChild_spec n l : hasChild n l = bool_decide (Some n ∈ names l).
Proof.
  unfold hasChild.
  destruct (Z.eqb_spec (JsArray.indexOf n (names l)) (-1)) as [E|E]; simpl.
  - apply indexOf_absent in E. by rewrite bool_decide_eq_false_2.
  - rewrite bool_decide_eq_true_2; [done|].
    destruct (decide (Some n ∈ names l)) as [|Hout]; [done|].
    by apply indexOf_absent in Hout.
Qed.

Lemma childWasAdded_stores_name (has_property : string -> bool) s previousName l :
  names (childWasAdded has_property s previousName l)
    !! Z.to_nat (_indexAfter l previousName) = Some (Some (snap_name s)).
Proof.
  pose proof (indexAfter_bounds l previousName) as Hb.
  simpl. apply store_lookup. lia.
Qed.

Lemma childWasAdded_hasChild (has_property : string -> bool) s previousName l :
  hasChild (snap_name s) (childWasAdded has_property s previousName l) = true.
Proof.
  rewrite hasChild_spec. apply bool_decide_eq_true_2.
  apply list_elem_of_lookup. eexists. apply childWasAdded_stores_name.
Qed.

(** X1: After [childWasAdded] the list has the child: [hasChild] answers true
    for its name and [childNameAt] gives the name at the resolved index. *)
Theorem added_child_is_found (has_property : string -> bool) s previousName l :
  hasChild (snap_name s) (childWasAdded has_property s previousName l) = true /\
  childNameAt (_indexAfter l previousName)
    (childWasAdded has_property s previousName l) = Some (snap_name s).
Proof.
  pose proof (indexAfter_bounds l previousName) as Hb.
  split; [apply childWasAdded_hasChild|].
  unfold childNameAt. destruct (Z.ltb_spec (_indexAfter l previousName) 0); [lia|].
  by rewrite childWasAdded_stores_name.
Qed.

(** X2: After [childWasRemoved] of a name that occurred once, [hasChild] answers
    false for it, and its answer for every other name is as before. *)
Theorem removed_child_is_gone s l :
  (forall i j : nat,
     names l !! i = Some (Some (snap_name s)) ->
     names l !! j = Some (Some (snap_name s)) -> i = j) ->
  hasChild (snap_name s) (childWasRemoved s l) = false /\
  (forall other, other <> snap_name s ->
     hasChild other (childWasRemoved s l) = hasChild other l).
Proof.
  intros Huniq. unfold childWasRemoved.
  pose proof (indexOf_range (snap_name s) (names l)) as [E|Hr].
  { rewrite E. simpl. split; [|done].
    rewrite hasChild_spec. apply bool_decide_eq_false_2. by apply indexOf_absent. }
  destruct (Z.eqb_spec (JsArray.indexOf (snap_name s) (names l)) (-1)); [lia|].
  set (i := Z.to_nat (JsArray.indexOf (snap_name s) (names l))).
  replace (JsArray.indexOf (snap_name s) (names l)) with (Z.of_nat i) by lia.
  assert (Hi : names l !! i = Some (Some (snap_name s))).
  { apply indexOf_lookup. lia. }
  rewrite !hasChild_spec. simpl. rewrite !splice_delete. split.
  - apply bool_decide_eq_false_2. intros Hin.
    apply list_elem_of_lookup in Hin as [k Hk].
    destruct (decide (k < i)) as [Hlt|Hge].
    + rewrite list_lookup_delete_lt in Hk by done. specialize (Huniq _ _ Hi Hk). lia.
    + rewrite list_lookup_delete_ge in Hk by lia. specialize (Huniq _ _ Hi Hk). lia.
  - intros other Hne. rewrite !hasChild_spec. simpl. apply bool_decide_ext.
    rewrite !list_elem_of_lookup. split.
    + intros [k Hk]. destruct (decide (k < i)) as [Hlt|Hge].
      * rewrite list_lookup_delete_lt in Hk by done. by exists k.
      * rewrite list_lookup_delete_ge in Hk by lia. by exists (S k).
    + intros [k Hk]. destruct (decide (k < i)) as [Hlt|Hge].
      * exists k. by rewrite list_lookup_delete_lt.
      * destruct (decide (k = i)) as [->|Hki]; [congruence|].
        exists (k - 1). rewrite list_lookup_delete_ge by lia.
        by replace (S (k - 1)) with k by lia.
Qed.

Lemma removed_child_is_gone_witness :
  let l := {| baseRef := None; content := [JNum 1; JNum 2];
              names := [Some "a"; Some "b"] |} in
  hasChild "a" (childWasRemoved (Snapshot "a" JNull) l) = false /\
  hasChild "b" (childWasRemoved (Snapshot "a" JNull) l) = hasChild "b" l.
Proof.
  intros l.
  destruct (removed_child_is_gone (Snapshot "a" JNull) l) as [Hgone Hkept].
  - subst l; simpl. intros [|[|[|i]]] [|[|[|j]]]; simpl; congruence.
  - split; [exact Hgone|]. by apply Hkept.
Defined.

(** X3: A [child_moved] for a name the list does not have is handled as a
    [child_added]: the value is inserted and [content] grows by one. *)
Theorem moved_unknown_child_is_added (has_property : string -> bool) s previousName l :
  Some (snap_name s) ∉ names l ->
  childWasMoved has_property s previousName l =
    childWasAdded has_property s previousName l /\
  length (content (childWasMoved has_property s previousName l)) =
    S (length (content l)) /\
  hasChild (snap_name s) (childWasMoved has_property s previousName l) = true.
Proof.
  intros Hout. pose proof (indexAfter_bounds l previousName) as Hb.
  assert (Heq : childWasRemoved s l = l).
  { unfold childWasRemoved. apply indexOf_absent in Hout. by rewrite Hout. }
  unfold childWasMoved. rewrite Heq. split; [done|]. split.
  - simpl. rewrite splice_length by lia. simpl. lia.
  - apply childWasAdded_hasChild.
Qed.

Lemma moved_unknown_child_is_added_witness :
  let l := {| baseRef := None; content := [JNum 1]; names := [Some "a"] |} in
  content (childWasMoved declared (Snapshot "z" (JNum 9)) (Some "a") l) =
    [JNum 1; JNum 9] /\
  names (childWasMoved declared (Snapshot "z" (JNum 9)) (Some "a") l) =
    [Some "a"; Some "z"].
Proof.
  intros l.
  destruct (moved_unknown_child_is_added declared (Snapshot "z" (JNum 9)) (Some "a") l)
    as (Heq & _ & _).
  - subst l; simpl. intros Hin.
    repeat (apply elem_of_cons in Hin as [Hin|Hin]; [congruence|]).
    by apply elem_of_nil in Hin.
  - rewrite Heq. split; reflexivity.
Defined.

Section Sequences.

Variable has_property : string -> bool.

Lemma handle_length_le e l :
  length (names l) <= length (content l) ->
  length (names (handle has_property e l)) <=
    length (content (handle has_property e l)).
Proof.
  assert (Hadd : forall s p l', length (names l') <= length (content l') ->
            length (names (childWasAdded has_property s p l')) <=
              length (content (childWasAdded has_property s p l'))).
  { intros s p l' Hle. pose proof (indexAfter_bounds l' p) as Hb.
    cbn [childWasAdded names content].
    rewrite store_length by lia. rewrite splice_length by lia.
    change (Z.to_nat 0) with 0. cbn [length].
    destruct (decide _); lia. }
  assert (Hrem : forall s l', length (names l') <= length (content l') ->
            length (names (childWasRemoved s l')) <=
              length (content (childWasRemoved s l'))).
  { intros s l' Hle. unfold childWasRemoved.
    pose proof (indexOf_range (snap_name s) (names l')) as [E|Hr].
    - by rewrite E.
    - destruct (Z.eqb_spec (JsArray.indexOf (snap_name s) (names l')) (-1)); [lia|].
      cbn [names content]. rewrite !splice_length by lia.
      change (Z.to_nat 1) with 1. cbn [length]. lia. }
  intros Hle. destruct e as [s p|s p|s|s p]; simpl.
  - by apply Hadd.
  - pose proof (indexAfter_bounds l p) as Hb.
    cbn [childWasChanged names content].
    rewrite store_length by lia. rewrite splice_length by lia.
    change (Z.to_nat 1) with 1. cbn [length].
    destruct (decide _); lia.
  - by apply Hrem.
  - apply Hadd. by apply Hrem.
Qed.

(** X4: Whatever child events a list handles after [_resetContent], [_names] has
    no hole and is never longer than [content]: every name has a slot of
    [content] at its index. The reference of the list is not touched. *)
Theorem delivered_names_have_values es l0 :
  let l := deliver has_property es (_resetContent l0) in
  Forall is_Some (names l) /\
  length (names l) <= length (content l) /\
  baseRef l = baseRef l0.
Proof.
  assert (Hgen : forall es l,
            Forall is_Some (names l) ->
            length (names l) <= length (content l) ->
            Forall is_Some (names (deliver has_property es l)) /\
            length (names (deliver has_property es l)) <=
              length (content (deliver has_property es l)) /\
            baseRef (deliver has_property es l) = baseRef l).
  { clear es. unfold deliver. induction es as [|e es IH]; intros l Hd Hle; [done|].
    simpl. destruct (IH (handle has_property e l)) as (H1 & H2 & H3);
      [by apply handle_names_dense|by apply handle_length_le|].
    split; [done|]. split; [done|]. rewrite H3.
    destruct e as [s p|s p|s|s p]; simpl; try done;
      unfold childWasRemoved; by destruct (_ =? _)%Z. }
  intros l. subst l.
  destruct (Hgen es (_resetContent l0)) as (H1 & H2 & H3); simpl; [constructor|lia|].
  by repeat split.
Qed.

Lemma indexOf_last_unique (ns : list string) (n : string) :
  NoDup (ns ++ [n]) ->
  JsArray.indexOf n (Some <$> (ns ++ [n])) = Z.of_nat (length ns).
Proof.
  intros Hnd. apply indexOf_first.
  - rewrite list_lookup_fmap, lookup_app_r by lia.
    by rewrite Nat.sub_diag.
  - intros j Hj. rewrite list_lookup_fmap, lookup_app_l by lia.
    intros Hjn. apply list.NoDup_app in Hnd as (_ & Hsep & _).
    destruct (ns !! j) as [m|] eqn:Hm; simpl in Hjn; [|done].
    injection Hjn as ->. apply (Hsep n).
    + apply list_elem_of_lookup. by exists j.
    + apply list_elem_of_singleton. done.
Qed.

(** A child added behind the last name of an aligned list is put at the end of
    both arrays. *)
Lemma childWasAdded_behind_last s (ns : list string) l :
  names l = Some <$> ns ->
  length (content l) = length ns ->
  NoDup ns ->
  (forall p, list.last ns = Some p -> p <> "") ->
  childWasAdded has_property s (list.last ns) l =
    {| baseRef := baseRef l;
       content := content l ++ [createValueFromSnapshot has_property s];
       names := Some <$> (ns ++ [snap_name s]) |}.
Proof.
  intros Hns Hlen Hnd Hne.
  assert (Hidx : _indexAfter l (list.last ns) = Z.of_nat (length (names l))).
  { rewrite Hns, length_fmap. destruct (list.last ns) as [p|] eqn:Hlast; simpl.
    - apply last_Some in Hlast as [ms ->]. specialize (Hne p eq_refl).
      destruct p; [done|]. simpl. rewrite Hns, indexOf_last_unique by done.
      rewrite length_app. simpl. lia.
    - apply last_None in Hlast. by subst ns. }
  pose proof (childWasAdded_at_end has_property s (list.last ns) l Hidx) as Hnames.
  unfold childWasAdded in *. simpl in *. rewrite Hnames, Hidx. f_equal.
  - rewrite Hns, length_fmap, <- Hlen, splice_insert by done.
    by rewrite take_ge, drop_all by done.
  - by rewrite Hns, fmap_app.
Qed.

(** X5: Children that appear one behind the other, with names that are distinct
    and not empty, are listed in that order: after [_resetContent] the list
    holds their values and their names in the order of the events. *)
Theorem appended_children_in_order (children : list (string * jsval)) l0 :
  NoDup children.*1 ->
  Forall (fun n => n <> "") children.*1 ->
  deliver has_property (appended None children) (_resetContent l0) =
    {| baseRef := baseRef l0;
       content :=
         (fun c => createValueFromSnapshot has_property (Snapshot c.1 c.2)) <$> children;
       names := Some <$> children.*1 |}.
Proof.
  assert (Hgen : forall children (ns : list string) l,
            names l = Some <$> ns ->
            length (content l) = length ns ->
            NoDup (ns ++ children.*1) ->
            Forall (fun n => n <> "") (ns ++ children.*1) ->
            deliver has_property (appended (list.last ns) children) l =
              {| baseRef := baseRef l;
                 content :=
                   content l ++
                   ((fun c => createValueFromSnapshot has_property (Snapshot c.1 c.2))
                      <$> children);
                 names := Some <$> (ns ++ children.*1) |}).
  { clear children. induction children as [|[n v] children IH];
      intros ns l Hns Hlen Hnd Hne.
    - simpl. rewrite !app_nil_r, <- Hns. by destruct l.
    - change (deliver has_property (appended (list.last ns) ((n, v) :: children)) l)
        with (deliver has_property (appended (Some n) children)
                (childWasAdded has_property (Snapshot n v) (list.last ns) l)).
      rewrite (childWasAdded_behind_last (Snapshot n v) ns l Hns Hlen).
      + replace (Some n) with (list.last (ns ++ [n])) by apply last_snoc.
        rewrite (IH (ns ++ [n])); simpl.
        * by rewrite <- !app_assoc.
        * done.
        * rewrite !length_app. simpl. lia.
        * by rewrite <- app_assoc.
        * by rewrite <- app_assoc.
      + apply list.NoDup_app in Hnd. tauto.
      + intros p Hp. rewrite list.Forall_forall in Hne. apply Hne.
        apply elem_of_app. left. by apply last_Some_elem_of. }
  intros Hnd Hne.
  apply (Hgen children [] (_resetContent l0)); done.
Qed.

End Sequences.

Lemma appended_children_in_order_witness :
  deliver declared (appended None [("a", JNum 1); ("b", JNum 2); ("c", JNum 3)])
    (_resetContent {| baseRef := None; content := [JNum 0]; names := [Some "x"] |}) =
  {| baseRef := None;
     content := [JNum 1; JNum 2; JNum 3];
     names := [Some "a"; Some "b"; Some "c"] |}.
Proof.
  apply (appended_children_in_order declared
           [("a", JNum 1); ("b", JNum 2); ("c", JNum 3)]
           {| baseRef := None; content := [JNum 0]; names := [Some "x"] |}).
  - apply (bool_decide_unpack _). reflexivity.
  - repeat constructor; done.
Defined.

Section Slots.

Variable has_property : string -> bool.

Lemma splice_replace {X} (i : nat) (x : X) (arr : list X) :
  i < length arr ->
  JsArray.splice (Z.of_nat i) 1 [x] arr = <[i := x]> arr.
Proof.
  intros Hi. unfold JsArray.splice, JsArray.relative.
  destruct (Z.ltb_spec (Z.of_nat i) 0) as [|_]; [lia|].
  change (Z.max 1 0) with 1%Z.
  replace (Z.min (Z.of_nat i) (Z.of_nat (length arr))) with (Z.of_nat i) by lia.
  replace (Z.min 1 (Z.of_nat (length arr) - Z.of_nat i)) with 1%Z by lia.
  rewrite Nat2Z.id. replace (Z.to_nat (Z.of_nat i + 1)) with (S i) by lia.
  by rewrite insert_take_drop.
Qed.

(** X6: [childWasChanged] with a resolved index inside both arrays overwrites the
    value and the name at that index and nothing else; when the name at the
    index is the child's own, only its value changes. *)
Theorem changed_child_overwrites_slot s previousName l (i : nat) :
  _indexAfter l previousName = Z.of_nat i ->
  i < length (names l) ->
  i < length (content l) ->
  childWasChanged has_property s previousName l =
    {| baseRef := baseRef l;
       content := <[i := createValueFromSnapshot has_property s]> (content l);
       names := <[i := Some (snap_name s)]> (names l) |} /\
  (names l !! i = Some (Some (snap_name s)) ->
   names (childWasChanged has_property s previousName l) = names l) /\
  length (content (childWasChanged has_property s previousName l)) =
    length (content l).
Proof.
  intros Hidx Hn Hc.
  assert (Heq : childWasChanged has_property s previousName l =
    {| baseRef := baseRef l;
       content := <[i := createValueFromSnapshot has_property s]> (content l);
       names := <[i := Some (snap_name s)]> (names l) |}).
  { unfold childWasChanged. rewrite Hidx. f_equal.
    - by apply splice_replace.
    - unfold JsArray.store. destruct (Z.ltb_spec (Z.of_nat i) 0); [lia|].
      rewrite Nat2Z.id. by destruct (decide (i < length (names l))). }
  rewrite Heq. split; [done|]. simpl. split.
  - apply list_insert_id.
  - by rewrite length_insert.
Qed.

(** X7: A child moved behind the last of the other names of an aligned list with
    distinct names is put at the end of both arrays; the other children keep
    their order. *)
Theorem moved_child_behind_last s (ns ms : list string) (p : string) (i : nat) l :
  names l = Some <$> ns ->
  length (content l) = length ns ->
  NoDup ns ->
  ns !! i = Some (snap_name s) ->
  delete i ns = ms ++ [p] ->
  p <> "" ->
  childWasMoved has_property s (Some p) l =
    {| baseRef := baseRef l;
       content := delete i (content l) ++ [createValueFromSnapshot has_property s];
       names := Some <$> (delete i ns ++ [snap_name s]) |}.
Proof.
  intros Hns Hlen Hnd Hi Hdel Hp.
  assert (Hlt : i < length ns) by (by eapply lookup_lt_Some).
  assert (Hrem : childWasRemoved s l =
            {| baseRef := baseRef l;
               content := delete i (content l);
               names := Some <$> delete i ns |}).
  { unfold childWasRemoved.
    rewrite (indexOf_first (snap_name s) (names l) i).
    - destruct (Z.eqb_spec (Z.of_nat i) (-1)); [lia|].
      by rewrite !splice_delete, Hns, list_fmap_delete.
    - by rewrite Hns, list_lookup_fmap, Hi.
    - intros j Hj. rewrite Hns, list_lookup_fmap. intros Hjn.
      destruct (ns !! j) as [m|] eqn:Hm; simpl in Hjn; [|done].
      injection Hjn as ->. pose proof (NoDup_lookup _ _ _ _ Hnd Hm Hi). lia. }
  unfold childWasMoved. rewrite Hrem.
  replace (Some p) with (list.last (delete i ns)) by (rewrite Hdel; apply last_snoc).
  rewrite (childWasAdded_behind_last has_property s (delete i ns)); simpl.
  - done.
  - done.
  - rewrite !length_delete; [lia| |]; apply lookup_lt_is_Some; lia.
  - eapply sublist_NoDup; [exact Hnd|apply sublist_delete].
  - intros q. rewrite Hdel, last_snoc. by intros [= <-].
Qed.

End Slots.

Lemma changed_child_overwrites_slot_witness :
  childWasChanged declared (Snapshot "b" (JNum 20)) (Some "a")
    {| baseRef := None; content := [JNum 1; JNum 2; JNum 3];
       names := [Some "a"; Some "b"; Some "c"] |} =
  {| baseRef := None; content := [JNum 1; JNum 20; JNum 3];
     names := [Some "a"; Some "b"; Some "c"] |}.
Proof.
  destruct (changed_child_overwrites_slot declared (Snapshot "b" (JNum 20)) (Some "a")
              {| baseRef := None; content := [JNum 1; JNum 2; JNum 3];
                 names := [Some "a"; Some "b"; Some "c"] |} 1)
    as (Heq & _ & _); [reflexivity|simpl; lia|simpl; lia|].
  exact Heq.
Defined.

Lemma moved_child_behind_last_witness :
  childWasMoved declared (Snapshot "a" (JNum 1)) (Some "c")
    {| baseRef := None; content := [JNum 1; JNum 2; JNum 3];
       names := [Some "a"; Some "b"; Some "c"] |} =
  {| baseRef := None; content := [JNum 2; JNum 3; JNum 1];
     names := [Some "b"; Some "c"; Some "a"] |}.
Proof.
  apply (moved_child_behind_last declared (Snapshot "a" (JNum 1))
           ["a"; "b"; "c"] ["b"] "c" 0
           {| baseRef := None; content := [JNum 1; JNum 2; JNum 3];
              names := [Some "a"; Some "b"; Some "c"] |});
    try reflexivity; try done.
  apply (bool_decide_unpack _). reflexivity.
Defined.

Lemma assign_own_other key value (o : JsObject.t) (k : string) :
  k <> key -> JsObject.own (JsObject.assign key value o) !! k = JsObject.own o !! k.
Proof.
  intros Hk. unfold JsObject.assign. destruct (decide _); [done|].
  cbn. by rewrite lookup_insert_ne.
Qed.

Lemma assign_own_key key value (o : JsObject.t) :
  key <> JsObject.proto \/ is_Some (JsObject.own o !! key) ->
  JsObject.own (JsObject.assign key value o) !! key = Some value.
Proof.
  intros Hk. unfold JsObject.assign.
  destruct (decide _) as [(Hp & Hnone & _)|_].
  - destruct Hk as [Hk|[v Hv]]; [done|congruence].
  - cbn. by rewrite lookup_insert_eq.
Qed.

Lemma assign_proto_fresh value (o : JsObject.t) :
  JsObject.own o !! JsObject.proto = None ->
  JsObject.null_prototype o = false ->
  JsObject.own (JsObject.assign JsObject.proto value o) = JsObject.own o.
Proof.
  intros Hnone Hnp. unfold JsObject.assign.
  destruct (decide _) as [_|Hn]; [done|]. exfalso. by apply Hn.
Qed.

Lemma toJSON_loop_lookup_out (ns : list string) i content json (k : string) :
  k ∉ ns ->
  JsObject.own (toJSON_loop i (Some <$> ns) content json) !! k = JsObject.own json !! k.
Proof.
  revert i json. induction ns as [|n ns IH]; intros i json Hk; [done|].
  apply not_elem_of_cons in Hk as [Hkn Hk]. simpl.
  rewrite IH by done. by apply assign_own_other.
Qed.

Lemma toJSON_loop_lookup_in (ns : list string) i content json (j : nat) (k : string) :
  NoDup ns -> ns !! j = Some k -> k <> JsObject.proto ->
  JsObject.own (toJSON_loop i (Some <$> ns) content json) !! k =
    Some (getFirebaseValue (default JUndefined (content !! (i + j)))).
Proof.
  revert i j json. induction ns as [|n ns IH]; intros i j json Hnd Hj Hk; [done|].
  apply list.NoDup_cons in Hnd as [Hn Hnd]. simpl.
  destruct j as [|j]; simpl in Hj.
  - injection Hj as ->. rewrite toJSON_loop_lookup_out by done.
    rewrite Nat.add_0_r. apply assign_own_key. by left.
  - rewrite (IH (S i) j) by done. by rewrite Nat.add_succ_r.
Qed.

Lemma toJSON_loop_no_proto (ns : list string) i content json :
  NoDup ns ->
  JsObject.own json !! JsObject.proto = None ->
  JsObject.null_prototype json = false ->
  JsObject.own (toJSON_loop i (Some <$> ns) content json) !! JsObject.proto = None.
Proof.
  revert i json. induction ns as [|n ns IH]; intros i json Hnd Hnone Hnp; [done|].
  apply list.NoDup_cons in Hnd as [Hn Hnd]. simpl.
  destruct (decide (n = JsObject.proto)) as [->|Hne].
  - rewrite toJSON_loop_lookup_out by done.
    by rewrite assign_proto_fresh.
  - apply IH; [done| |].
    + by rewrite assign_own_other.
    + unfold JsObject.assign. destruct (decide _) as [(Hp & _)|_]; [done|]. done.
Qed.

(** X8: [toJSON] of a list with distinct names and no hole has as keys the
    names other than [__proto__]; each of them holds the Firebase value of
    the element of [content] at its index, [undefined] when [content] is too
    short. The name [__proto__] is no key of the result: the assignment
    [json['__proto__'] = value] makes none. *)
Theorem toJSON_pairs_names_with_values (ns : list string) l :
  names l = Some <$> ns ->
  NoDup ns ->
  (forall j n, ns !! j = Some n -> n <> JsObject.proto ->
     toJSON l !! n = Some (getFirebaseValue (default JUndefined (content l !! j)))) /\
  (forall k, k ∉ ns -> toJSON l !! k = None) /\
  toJSON l !! JsObject.proto = None /\
  dom (toJSON l) = list_to_set (filter (fun n => n <> JsObject.proto) ns).
Proof.
  intros Hns Hnd. unfold toJSON. rewrite Hns.
  assert (Hin : forall j n, ns !! j = Some n -> n <> JsObject.proto ->
     JsObject.own (toJSON_loop 0 (Some <$> ns) (content l) JsObject.empty) !! n =
       Some (getFirebaseValue (default JUndefined (content l !! j)))).
  { intros j n Hj Hn. by rewrite (toJSON_loop_lookup_in ns 0 _ _ j n). }
  assert (Hout : forall k, k ∉ ns ->
     JsObject.own (toJSON_loop 0 (Some <$> ns) (content l) JsObject.empty) !! k = None).
  { intros k Hk. by rewrite toJSON_loop_lookup_out. }
  assert (Hproto :
     JsObject.own (toJSON_loop 0 (Some <$> ns) (content l) JsObject.empty)
       !! JsObject.proto = None).
  { by apply toJSON_loop_no_proto. }
  split; [exact Hin|]. split; [exact Hout|]. split; [exact Hproto|].
  apply set_eq. intros k.
  rewrite elem_of_dom, elem_of_list_to_set, list_elem_of_filter.
  destruct (decide (k = JsObject.proto)) as [->|Hk].
  - rewrite Hproto. split; [intros [? ?]; done|intros [? _]; done].
  - destruct (decide (k ∈ ns)) as [Hkin|Hkout].
    + apply list_elem_of_lookup in Hkin as [j Hj]. rewrite (Hin j k Hj Hk).
      split; [intros _; split; [done|apply list_elem_of_lookup; by exists j]
             |by eexists].
    + rewrite (Hout k Hkout). split; [intros [? ?]; done|intros [_ ?]; done].
Qed.

Lemma toJSON_pairs_names_with_values_witness :
  let l := {| baseRef := None;
              content := [JNum 1; JNull; JModel (JStr "two")];
              names := [Some "a"; Some "__proto__"; Some "b"] |} in
  toJSON l !! "b" = Some (JStr "two") /\
  toJSON l !! "__proto__" = None.
Proof.
  intros l.
  destruct (toJSON_pairs_names_with_values ["a"; "__proto__"; "b"] l eq_refl)
    as (Hin & _ & Hproto & _).
  - apply (bool_decide_unpack _). reflexivity.
  - split; [|exact Hproto]. apply (Hin 2 "b"); [reflexivity|discriminate].
Defined.

End ListCoverage.

(** ** Firebase.Array: delivery without exception, serialization *)

Section ArrayCoverage.

Import FirebaseArray.

Implicit Types (l : t) (s : snapshot) (e : event).

Lemma array_indexAfter_bounds l previousName :
  (0 <= _indexAfter l previousName <= Z.of_nat (length (names l)))%Z.
Proof.
  unfold _indexAfter. destruct previousName as [n|]; [|lia].
  destruct (truthy n); [|lia].
  pose proof (indexOf_range n (names l)). lia.
Qed.

Lemma store_dense {X} (i : Z) (x : X) (arr : JsArray.sparse X) :
  (0 <= i <= Z.of_nat (length arr))%Z ->
  Forall is_Some arr -> Forall is_Some (JsArray.store i x arr).
Proof.
  intros Hi Harr. unfold JsArray.store.
  destruct (Z.ltb_spec i 0); [lia|].
  destruct (decide (Z.to_nat i < length arr)).
  - apply Forall_insert; [done|by eexists].
  - replace (Z.to_nat i - length arr) with 0 by lia. simpl.
    apply Forall_app; split; [done|]. by repeat constructor.
Qed.

Lemma splice_dense {X} (i : Z) (arr : JsArray.sparse X) :
  Forall is_Some arr -> Forall is_Some (JsArray.splice i 1 [] arr).
Proof.
  intros Harr. unfold JsArray.splice. simpl.
  apply Forall_app; split; [by apply Forall_take|by apply Forall_drop].
Qed.

Lemma array_handle_aligned e l :
  aligned l -> exists l', handle e l = Normal l' /\ aligned l'.
Proof.
  assert (Hadd : forall s p l0, aligned l0 ->
            exists l', childWasAdded s p l0 = Normal l' /\ aligned l').
  { intros s p l0 [Hd Hle]. pose proof (array_indexAfter_bounds l0 p) as Hb.
    unfold childWasAdded. destruct (String.eqb _ _); [by eexists|].
    unfold insertAt.
    destruct (Z.ltb_spec (Z.of_nat (length (content l0))) (_indexAfter l0 p)); [lia|].
    eexists; split; [reflexivity|]. split; cbn [names content].
    - by apply store_dense.
    - rewrite store_length by lia. rewrite splice_length by lia.
      change (Z.to_nat 0) with 0. cbn [length]. destruct (decide _); lia. }
  assert (Hrem : forall s l0, aligned l0 ->
            exists l', childWasRemoved s l0 = Normal l' /\ aligned l').
  { intros s l0 [Hd Hle]. unfold childWasRemoved.
    destruct (String.eqb _ _); [by eexists|].
    pose proof (indexOf_range (snap_name s) (names l0)) as [E|Hr].
    - rewrite E. by eexists.
    - destruct (Z.eqb_spec (JsArray.indexOf (snap_name s) (names l0)) (-1)); [lia|].
      unfold removeAt.
      destruct (Z.ltb_spec (JsArray.indexOf (snap_name s) (names l0)) 0); [lia|].
      destruct (Z.leb_spec (Z.of_nat (length (content l0)))
                  (JsArray.indexOf (snap_name s) (names l0))); [lia|].
      eexists; split; [reflexivity|]. split; cbn [names content orb].
      + by apply splice_dense.
      + rewrite !splice_length by lia. change (Z.to_nat 1) with 1.
        cbn [length]. lia. }
  intros Hal. destruct e as [s p|s p|s|s p]; simpl.
  - by apply Hadd.
  - destruct Hal as [Hd Hle]. pose proof (array_indexAfter_bounds l p) as Hb.
    unfold childWasChanged. destruct (String.eqb _ _); [by eexists|].
    eexists; split; [reflexivity|]. split; cbn [names content].
    + by apply store_dense.
    + rewrite store_length by lia. rewrite splice_length by lia.
      change (Z.to_nat 1) with 1. cbn [length]. destruct (decide _); lia.
  - by apply Hrem.
  - unfold childWasMoved. destruct (String.eqb _ _); [by eexists|].
    destruct (Hrem s l Hal) as (l1 & -> & Hal1). by apply Hadd.
Qed.

(** X9: Whatever child events a [Firebase.Array] handles after [_resetContent],
    no handler throws: [insertAt] and [removeAt] are always called inside
    [content], because [_names] has no hole and is never longer than
    [content]. *)
Theorem array_delivery_never_throws es :
  exists l,
    deliver es _resetContent = Normal l /\
    Forall is_Some (names l) /\
    length (names l) <= length (content l).
Proof.
  assert (Hgen : forall es l0, aligned l0 ->
            exists l, deliver es l0 = Normal l /\ aligned l).
  { clear es. induction es as [|e es IH]; intros l0 Hal; [by eexists|].
    simpl. destruct (array_handle_aligned e l0 Hal) as (l1 & -> & Hal1).
    by apply IH. }
  destruct (Hgen es _resetContent) as (l & Hrun & Hd & Hle).
  - split; simpl; [constructor|lia].
  - by exists l.
Qed.

Lemma pretty_N_go_no_underscore (x : N) (acc : string) :
  (forall rest, acc <> "_" +:+ rest) ->
  forall rest, pretty_N_go x acc <> "_" +:+ rest.
Proof.
  revert acc. induction (N.lt_wf_0 x) as [x _ IH]; intros acc Hacc rest.
  destruct (decide (x = 0)%N) as [->|Hpos].
  - rewrite pretty_N_go_0. apply Hacc.
  - rewrite pretty_N_go_step by lia. apply IH.
    + apply N.div_lt; lia.
    + intros rest'. unfold pretty_N_char. by repeat case_match.
Qed.

Lemma pretty_index_not_marker (i : nat) : pretty i <> marker.
Proof.
  unfold pretty, pretty_nat, pretty, pretty_N.
  destruct (decide (N.of_nat i = 0)%N); [done|].
  apply pretty_N_go_no_underscore. done.
Qed.

Lemma getArrayValue_from_lookup_other (array : list jsval) index value (k : string) :
  (forall j, j < length array -> k <> pretty (index + j)) ->
  getArrayValue_from index array value !! k = value !! k.
Proof.
  revert index value. induction array as [|object rest IH]; intros index value Hk; [done|].
  simpl. rewrite IH.
  - apply lookup_insert_ne. specialize (Hk 0 ltac:(simpl; lia)).
    rewrite Nat.add_0_r in Hk. done.
  - intros j Hj. specialize (Hk (S j) ltac:(simpl; lia)).
    by rewrite Nat.add_succ_r in Hk.
Qed.

Lemma getArrayValue_from_lookup_index (array : list jsval) index value (j : nat) :
  j < length array ->
  getArrayValue_from index array value !! pretty (index + j) =
    getFirebaseValue <$> array !! j.
Proof.
  revert index value j. induction array as [|object rest IH]; intros index value j Hj;
    simpl in Hj; [lia|].
  simpl. destruct j as [|j].
  - rewrite getArrayValue_from_lookup_other.
    + by rewrite Nat.add_0_r, lookup_insert_eq.
    + intros j _ Heq. apply (inj pretty) in Heq. lia.
  - rewrite Nat.add_succ_r. apply (IH (S index)). lia.
Qed.

(** X10: [getArrayValue] keeps the marker [_isArray: true] beside the elements:
    the key of each index holds the Firebase value of the element there, an
    index beyond the array is no key, and no element replaces the marker. *)
Theorem getArrayValue_keeps_marker (array : list jsval) :
  getArrayValue array !! marker = Some (JBool true) /\
  (forall i, getArrayValue array !! pretty i = getFirebaseValue <$> array !! i).
Proof.
  unfold getArrayValue. split.
  - rewrite getArrayValue_from_lookup_other; [by rewrite lookup_singleton_eq|].
    intros j _ Heq. by apply (pretty_index_not_marker (0 + j)).
  - intros i. destruct (decide (i < length array)) as [Hlt|Hge].
    + by apply (getArrayValue_from_lookup_index array 0 _ i).
    + rewrite (lookup_ge_None_2 array i) by lia. simpl.
      rewrite getArrayValue_from_lookup_other.
      * apply lookup_singleton_ne. intros Heq. by apply (pretty_index_not_marker i).
      * intros j Hj Heq. apply (inj pretty) in Heq. lia.
Qed.

(** X11: [toJSON] of a [Firebase.Array] carries the marker [_isArray: true]
    whatever child events the array has handled: no name in [_names] is the
    marker, so the loop over the names never replaces it. *)
Theorem array_toJSON_keeps_marker (node_toJSON : location -> jsval) es :
  toJSON node_toJSON (final (deliver es _resetContent)) !! marker = Some (JBool true).
Proof.
  assert (Hloop : forall (ns : JsArray.sparse string) i content json,
            Some marker ∉ ns ->
            JsObject.own (toJSON_loop node_toJSON i ns content json) !! marker =
              JsObject.own json !! marker).
  { induction ns as [|n ns IH]; intros i content json Hout; [done|].
    apply not_elem_of_cons in Hout as [Hn Hout]. simpl.
    rewrite IH by done. apply assign_own_other.
    destruct n as [n|]; [congruence|done]. }
  unfold toJSON. rewrite Hloop; [cbn [JsObject.own]; apply lookup_singleton_eq|].
  apply deliver_keeps_marker_out. simpl. apply not_elem_of_nil.
Qed.

End ArrayCoverage.

(** ** Firebase.Binding: connections, coalescing, the flush *)

Section BindingCoverage.

Import Binding.

Implicit Types (b : t) (object : nat) (snap : snapshot).

(** X12: After [disconnect] a call of [_sync] that was queued for the object does
    nothing: no property is written, nothing is written to the reference and
    the binding is as [disconnect] left it. *)
Theorem disconnect_prevents_sync (changed : jsval -> jsval -> bool)
    object (s : option snapshot) b :
  _sync changed object s (disconnect object b) = Normal (disconnect object b) /\
  _directionMap (disconnect object b) !! object = None /\
  object ∉ _objects (disconnect object b).
Proof.
  assert (Hnone : _directionMap (disconnect object b) !! object = None).
  { unfold disconnect. cbn [_directionMap with_directionMap]. apply lookup_delete_eq. }
  split; [|split; [done|]].
  - unfold _sync. destruct (isDestroyed _); [done|].
    rewrite Hnone. f_equal.
    rewrite (delete_id _ _ Hnone). by destruct (disconnect object b).
  - unfold disconnect.
    destruct (decide _); destruct (_oneWay _); cbn; rewrite list_elem_of_filter; tauto.
Qed.

Lemma scheduleSync_pull_pending object (s : option snapshot) b :
  _directionMap b !! object = Some pull ->
  _scheduleSync pull object s b = b.
Proof.
  intros Hp. unfold _scheduleSync. rewrite Hp.
  destruct (decide (Some pull = Some push /\ pull = pull)) as [[? _]|_]; done.
Qed.

Lemma scheduleSync_objects d object (s : option snapshot) b :
  _objects (_scheduleSync d object s b) = _objects b /\
  _ignoreRefChanges (_scheduleSync d object s b) = _ignoreRefChanges b.
Proof.
  unfold _scheduleSync.
  destruct (_directionMap b !! object); destruct (decide _); by destruct b.
Qed.

(** X13: A second change of the reference before the flush changes nothing: the
    calls of [_sync] queued by the first change stay as they are, with the
    snapshot of the first change. *)
Theorem refDidChange_coalesces snap1 snap2 b :
  _refDidChange snap2 (_refDidChange snap1 b) = _refDidChange snap1 b.
Proof.
  destruct (_ignoreRefChanges b) eqn:Hig.
  { unfold _refDidChange. by rewrite Hig, Hig. }
  assert (Hkeep : forall objs b0,
            _objects (JsArray.forEach objs
                        (fun o => _scheduleSync pull o (Some snap1)) b0) = _objects b0 /\
            _ignoreRefChanges (JsArray.forEach objs
                        (fun o => _scheduleSync pull o (Some snap1)) b0) =
              _ignoreRefChanges b0).
  { unfold JsArray.forEach. induction objs as [|o objs IH]; intros b0; [done|].
    simpl. destruct (IH (_scheduleSync pull o (Some snap1) b0)) as [-> ->].
    apply scheduleSync_objects. }
  assert (Hidle : forall objs b0,
            (forall o, o ∈ objs -> _directionMap b0 !! o = Some pull) ->
            JsArray.forEach objs (fun o => _scheduleSync pull o (Some snap2)) b0 = b0).
  { unfold JsArray.forEach. induction objs as [|o objs IH]; intros b0 Hall; [done|].
    simpl. rewrite scheduleSync_pull_pending by (apply Hall; by left).
    apply IH. intros o' Ho'. apply Hall. by right. }
  unfold _refDidChange at 1.
  assert (Hobjs : _objects (_refDidChange snap1 b) = _objects b /\
                  _ignoreRefChanges (_refDidChange snap1 b) = false).
  { unfold _refDidChange. rewrite Hig. destruct (Hkeep (_objects b) b) as [-> ->].
    done. }
  destruct Hobjs as [Hobjs ->]. rewrite Hobjs. apply Hidle.
  intros o Ho. by apply refDidChange_schedules_pull.
Qed.

Lemma connect_fields object b :
  _objects (connect object b) =
    (if decide (object ∈ _objects b) then _objects b else _objects b ++ [object]) /\
  _observingRef (connect object b) = true /\
  pathObservers (connect object b) =
    (if _oneWay b then pathObservers b else {[object]} ∪ pathObservers b) /\
  _oneWay (connect object b) = _oneWay b.
Proof.
  unfold connect. destruct b as [r w objs obs dm ig hp po su q wr]. cbn.
  destruct (decide (object ∈ objs)); destruct obs; destruct w; cbn; done.
Qed.

Lemma disconnect_fields object b :
  _objects (disconnect object b) = filter (fun o => o <> object) (_objects b) /\
  _observingRef (disconnect object b) =
    (if decide (length (filter (fun o => o <> object) (_objects b)) = 0 /\
                _observingRef b = true)
     then false else _observingRef b) /\
  pathObservers (disconnect object b) =
    (if _oneWay b then pathObservers b else pathObservers b ∖ {[object]}) /\
  _oneWay (disconnect object b) = _oneWay b.
Proof.
  unfold disconnect. destruct b as [r w objs obs dm ig hp po su q wr]. cbn.
  destruct (decide _); destruct w; cbn; done.
Qed.

(** X14: Whatever calls of [connect] and [disconnect] a new binding receives, no
    object is connected twice, the reference is observed exactly while some
    object is connected, and the objects whose path is observed are the
    connected ones, or none for a one-way binding. *)
Theorem connections_are_counted (way : bool) (r : location) (h : nat -> owner)
    (ks : list link) :
  let b := fold_left relink ks (if way then oneWay (create r h) else create r h) in
  NoDup (_objects b) /\
  (_observingRef b = true <-> _objects b <> []) /\
  pathObservers b = (if way then ∅ else list_to_set (_objects b)) /\
  _oneWay b = way.
Proof.
  set (inv := fun b : t =>
    NoDup (_objects b) /\
    (_observingRef b = true <-> _objects b <> []) /\
    pathObservers b = (if way then ∅ else list_to_set (_objects b)) /\
    _oneWay b = way).
  assert (Hstep : forall k b, inv b -> inv (relink b k)).
  { intros [o|o] b (Hnd & Hobs & Hpath & Hway); unfold inv; cbn [relink].
    - destruct (connect_fields o b) as (-> & -> & -> & ->). rewrite Hway, Hpath.
      destruct (decide (o ∈ _objects b)) as [Hin|Hout].
      + split; [done|]. split.
        * split; [intros _ Hnil; rewrite Hnil in Hin; by apply elem_of_nil in Hin|done].
        * split; [|done]. destruct way; [done|].
          apply set_eq. intros x.
          rewrite elem_of_union, elem_of_singleton, elem_of_list_to_set.
          split; [by intros [->|?]|by right].
      + split.
        * apply list.NoDup_app. split; [done|]. split; [|apply NoDup_singleton].
          intros x Hx Hx'. apply list_elem_of_singleton in Hx'. by subst.
        * split; [split; [intros _; by destruct (_objects b)|done]|].
          split; [|done]. destruct way; [done|].
          apply set_eq. intros x.
          rewrite elem_of_union, elem_of_singleton, !elem_of_list_to_set.
          rewrite elem_of_app, list_elem_of_singleton. tauto.
    - destruct (disconnect_fields o b) as (-> & -> & -> & ->). rewrite Hway, Hpath.
      set (objs := filter (fun o' => o' <> o) (_objects b)).
      split; [by apply NoDup_filter|]. split; [|split; [|done]].
      + destruct (decide (length objs = 0 /\ _observingRef b = true)) as [[Hlen Ho]|Hn].
        * apply length_zero_iff_nil in Hlen. rewrite Hlen. done.
        * split.
          -- intros Ho Hnil. apply Hn. split; [by rewrite Hnil|done].
          -- intros Hne. apply Hobs. intros Hnil. apply Hne. unfold objs. by rewrite Hnil.
      + destruct way; [done|]. apply set_eq. intros x.
        rewrite elem_of_difference, !elem_of_list_to_set.
        unfold objs. rewrite list_elem_of_filter, elem_of_singleton. tauto. }
  assert (Hall : forall calls b, inv b -> inv (fold_left relink calls b)).
  { induction calls as [|k calls IH]; intros b Hb; [exact Hb|].
    simpl. apply IH. by apply Hstep. }
  apply Hall. unfold inv. destruct way; cbn; repeat split; try done; apply NoDup_nil_2.
Qed.

Section Flush.

Variable changed : jsval -> jsval -> bool.

(** What [set] leaves alone when the object's observer is not called. *)
Lemma set_unobserved object value b :
  (object ∉ pathObservers b \/ object ∈ suspended b) ->
  set changed object value b = b \/
  set changed object value b =
    with_heap (<[object := Owner (isDestroyed (heap b object)) value]> (heap b)) b.
Proof.
  intros Hun. unfold set. destruct (changed _ _); [|by left]. right.
  cbn. destruct (decide _) as [[Hin Hout]|_]; [|done].
  destruct Hun; done.
Qed.

(** The parts of the binding a call of [_sync] leaves alone, whether it
    returns or throws. *)
Lemma sync_frame object (s : option snapshot) b :
  observers_registered b ->
  syncQueue (final (_sync changed object s b)) = syncQueue b /\
  _oneWay (final (_sync changed object s b)) = _oneWay b /\
  pathObservers (final (_sync changed object s b)) = pathObservers b /\
  _objects (final (_sync changed object s b)) = _objects b.
Proof.
  intros Hreg. unfold _sync.
  destruct (isDestroyed (heap b object)) eqn:Hd; [done|].
  destruct (_directionMap b !! object) as [[|]|]; cbn; [| |done].
  - unfold ref_set, _refDidChange. cbn. by destruct (_observingRef b).
  - destruct s as [snap|]; cbn; [|done].
    destruct (_oneWay b) eqn:Hway; cbn.
    + unfold trySet. cbn. rewrite Hd.
      destruct (set_unobserved object (getSnapshotValue snap)
                  (with_directionMap (delete object (_directionMap b)) b))
        as [-> | ->]; cbn; try done.
      left. rewrite (Hreg Hway). apply not_elem_of_empty.
    + unfold _suspendObserver. cbn.
      destruct (decide (object ∈ pathObservers b)) as [Hin|Hout]; unfold trySet; cbn;
        rewrite Hd.
      * destruct (set_unobserved object (getSnapshotValue snap)
                    (with_suspended ({[object]} ∪ suspended b)
                       (with_directionMap (delete object (_directionMap b)) b)))
          as [-> | ->]; cbn; try done.
        right. apply elem_of_union_l. by apply elem_of_singleton.
      * destruct (set_unobserved object (getSnapshotValue snap)
                    (with_directionMap (delete object (_directionMap b)) b))
          as [-> | ->]; cbn; try done.
        by left.
Qed.

(** X15: The flush ends: with as much fuel as there are queued calls, every call
    of [_sync] has run or one of them has thrown, and when the flush returns
    the queue is empty. A call of [_sync] queues no further call. *)
Theorem flush_empties_queue b :
  observers_registered b ->
  exists c,
    flush changed (length (syncQueue b)) b = Some c /\
    (forall b', c = Normal b' -> syncQueue b' = []).
Proof.
  remember (length (syncQueue b)) as n eqn:Hn.
  revert b Hn. induction n as [|n IH]; intros b Hn Hreg.
  - destruct (syncQueue b) as [|[o s] rest] eqn:Hq; [|done].
    exists (Normal b). split.
    + unfold flush. by rewrite Hq.
    + by intros b' [= <-].
  - destruct (syncQueue b) as [|[o s] rest] eqn:Hq; [done|].
    simpl. rewrite Hq.
    destruct (sync_frame o s (with_syncQueue rest b)) as (Hqueue & Hway & Hobs & _);
      [exact Hreg|].
    destruct (_sync changed o s (with_syncQueue rest b)) as [b1|e b1] eqn:Hrun.
    + cbn in Hqueue, Hway, Hobs.
      apply IH.
      * rewrite Hqueue. simpl in Hn. lia.
      * unfold observers_registered. rewrite Hway, Hobs. exact Hreg.
    + eexists. split; [reflexivity|]. by intros b' [=].
Qed.

Lemma scheduleSync_frame d object (s : option snapshot) b :
  _oneWay (_scheduleSync d object s b) = _oneWay b /\
  pathObservers (_scheduleSync d object s b) = pathObservers b /\
  suspended (_scheduleSync d object s b) = suspended b /\
  heap (_scheduleSync d object s b) = heap b /\
  writes (_scheduleSync d object s b) = writes b.
Proof.
  unfold _scheduleSync.
  destruct (_directionMap b !! object); destruct (decide _); by destruct b.
Qed.

Lemma refDidChange_frame snap b :
  _oneWay (_refDidChange snap b) = _oneWay b /\
  pathObservers (_refDidChange snap b) = pathObservers b /\
  heap (_refDidChange snap b) = heap b /\
  writes (_refDidChange snap b) = writes b /\
  (forall object, _directionMap (_refDidChange snap b) !! object = Some push ->
                  _directionMap b !! object = Some push).
Proof.
  unfold _refDidChange. destruct (_ignoreRefChanges b); [done|].
  unfold JsArray.forEach. generalize (_objects b). intros objs. revert b.
  induction objs as [|o objs IH]; intros b; [done|]. simpl.
  destruct (IH (_scheduleSync pull o (Some snap) b)) as (-> & -> & -> & -> & Hdm).
  destruct (scheduleSync_frame pull o (Some snap) b) as (-> & -> & _ & -> & ->).
  repeat split; try done.
  intros object Hp. apply Hdm in Hp. rewrite scheduleSync_pull_lookup in Hp.
  by destruct (decide (o = object)).
Qed.

(** X16: A one-way binding writes nothing to the reference: [connect],
    [disconnect], a change of the reference, a write to the property and the
    flush each leave [writes] as it is and the binding one-way with nothing
    to push; the write to the property queues nothing. *)
Theorem one_way_never_writes b :
  one_way b ->
  (forall object, one_way (connect object b) /\ writes (connect object b) = writes b) /\
  (forall object,
     one_way (disconnect object b) /\ writes (disconnect object b) = writes b) /\
  (forall snap,
     one_way (_refDidChange snap b) /\ writes (_refDidChange snap b) = writes b) /\
  (forall object value,
     one_way (set changed object value b) /\
     writes (set changed object value b) = writes b /\
     syncQueue (set changed object value b) = syncQueue b) /\
  (forall fuel c,
     flush changed fuel b = Some c ->
     one_way (final c) /\ writes (final c) = writes b).
Proof.
  intros (Hway & Hobs & Hpush).
  split; [|split; [|split; [|split]]].
  - intros object. destruct (connect_fields object b) as (_ & _ & Hp & Hw).
    rewrite Hway in Hp. split; [split; [by rewrite Hw|split; [by rewrite Hp|]]|].
    + unfold connect. intros o.
      destruct (decide _); destruct (_observingRef _); cbn; rewrite Hway; apply Hpush.
    + unfold connect.
      destruct (decide _); destruct (_observingRef _); cbn; by rewrite Hway.
  - intros object. destruct (disconnect_fields object b) as (_ & _ & Hp & Hw).
    rewrite Hway in Hp. split; [split; [by rewrite Hw|split; [by rewrite Hp|]]|].
    + intros o. unfold disconnect. cbn [_directionMap with_directionMap].
      destruct (decide (object = o)) as [->|Hne].
      * by rewrite lookup_delete_eq.
      * rewrite lookup_delete_ne by done.
        destruct (decide _); destruct (_oneWay _); cbn; apply Hpush.
    + unfold disconnect. destruct (decide _); destruct (_oneWay _); by cbn.
  - intros snap. destruct (refDidChange_frame snap b) as (Hw & Hp & _ & Hwr & Hdm).
    split; [|done]. split; [by rewrite Hw|]. split; [by rewrite Hp|].
    intros o Ho. by apply (Hpush o), Hdm.
  - intros object value.
    destruct (set_unobserved object value b) as [-> | ->].
    + left. rewrite Hobs. apply not_elem_of_empty.
    + done.
    + by destruct b.
  - assert (Hsync : forall o s b0, one_way b0 ->
              one_way (final (_sync changed o s b0)) /\
              writes (final (_sync changed o s b0)) = writes b0).
    { intros o s b0 (Hway0 & Hobs0 & Hpush0). unfold _sync.
      destruct (isDestroyed (heap b0 o)) eqn:Hd; [done|].
      assert (Hdel : one_way (with_directionMap (delete o (_directionMap b0)) b0)).
      { split; [done|]. split; [done|]. intros o'. cbn.
        destruct (decide (o = o')) as [->|Hne];
          [by rewrite lookup_delete_eq|rewrite lookup_delete_ne by done; apply Hpush0]. }
      destruct (_directionMap b0 !! o) as [[|]|] eqn:Ho; cbn; [| |done].
      - by destruct (Hpush0 o).
      - destruct s as [snap|]; cbn; [|done]. rewrite Hway0.
        unfold trySet. cbn. rewrite Hd.
        destruct (set_unobserved o (getSnapshotValue snap)
                    (with_directionMap (delete o (_directionMap b0)) b0))
          as [-> | ->]; cbn; try done.
        left. cbn. rewrite Hobs0. apply not_elem_of_empty. }
    intros fuel. revert b Hway Hobs Hpush.
    induction fuel as [|fuel IH]; intros b Hway Hobs Hpush c Hrun.
    + simpl in Hrun. destruct (syncQueue b) as [|[o s] rest]; [|done].
      injection Hrun as <-. done.
    + simpl in Hrun. destruct (syncQueue b) as [|[o s] rest] eqn:Hq.
      { injection Hrun as <-. done. }
      destruct (Hsync o s (with_syncQueue rest b)) as [Hone Hwr]; [done|].
      destruct (_sync changed o s (with_syncQueue rest b)) as [b1|e b1].
      * cbn in Hone, Hwr. destruct Hone as (H1 & H2 & H3).
        destruct (IH b1 H1 H2 H3 c Hrun) as [Hc Hcw]. split; [done|]. by rewrite Hcw.
      * injection Hrun as <-. done.
Qed.

End Flush.

Section Pull.

Variable changed : jsval -> jsval -> bool.

(** Ember's test finds no change only between a value and itself. *)
Hypothesis changed_sound : forall x y, changed x y = false -> x = y.

Lemma set_quiet object value b :
  (object ∉ pathObservers b \/ object ∈ suspended b) ->
  syncQueue (set changed object value b) = syncQueue b /\
  writes (set changed object value b) = writes b /\
  _oneWay (set changed object value b) = _oneWay b /\
  pathObservers (set changed object value b) = pathObservers b /\
  _directionMap (set changed object value b) = _directionMap b /\
  (forall o, o <> object -> heap (set changed object value b) o = heap b o) /\
  isDestroyed (heap (set changed object value b) object) =
    isDestroyed (heap b object) /\
  prop (heap (set changed object value b) object) = value.
Proof.
  intros Hun. unfold set. destruct (changed _ _) eqn:Hch.
  - cbn. destruct (decide _) as [[Hin Hout]|_]; [by destruct Hun|]. cbn.
    rewrite fn_lookup_insert. repeat split; try done.
    intros o Ho. by rewrite fn_lookup_insert_ne.
  - repeat split; try done. by apply changed_sound.
Qed.

Lemma sync_pull_step object snap b :
  observers_registered b ->
  _directionMap b !! object = Some pull ->
  exists b1,
    _sync changed object (Some snap) b = Normal b1 /\
    syncQueue b1 = syncQueue b /\
    writes b1 = writes b /\
    _oneWay b1 = _oneWay b /\
    pathObservers b1 = pathObservers b /\
    (forall o, o <> object -> _directionMap b1 !! o = _directionMap b !! o) /\
    (forall o, o <> object -> heap b1 o = heap b o) /\
    isDestroyed (heap b1 object) = isDestroyed (heap b object) /\
    (isDestroyed (heap b object) = false -> prop (heap b1 object) = snap_val snap).
Proof.
  intros Hreg Hp. unfold _sync.
  destruct (isDestroyed (heap b object)) eqn:Hd.
  { exists b. by repeat split. }
  rewrite Hp. cbn.
  set (b0 := with_directionMap (delete object (_directionMap b)) b).
  assert (Hdm : forall o, o <> object -> _directionMap b0 !! o = _directionMap b !! o).
  { intros o Ho. cbn. by rewrite lookup_delete_ne. }
  destruct (_oneWay b) eqn:Hway.
  - eexists. split; [reflexivity|]. unfold trySet. cbn. rewrite Hd.
    destruct (set_quiet object (getSnapshotValue snap) b0)
      as (H1 & H2 & H3 & H4 & H5 & H6 & H7 & H8).
    { left. cbn. rewrite (Hreg Hway). apply not_elem_of_empty. }
    rewrite H1, H2, H3, H4, H5, H7. repeat split; try done.
  - unfold _suspendObserver. cbn.
    destruct (decide (object ∈ pathObservers b)) as [Hin|Hout].
    + eexists. split; [reflexivity|]. unfold trySet. cbn. rewrite Hd.
      destruct (set_quiet object (getSnapshotValue snap)
                  (with_suspended ({[object]} ∪ suspended b) b0))
        as (H1 & H2 & H3 & H4 & H5 & H6 & H7 & H8).
      { right. cbn. apply elem_of_union_l. by apply elem_of_singleton. }
      cbn. rewrite H1, H2, H3, H4, H5, H7. repeat split; try done.
    + eexists. split; [reflexivity|]. unfold trySet. cbn. rewrite Hd.
      destruct (set_quiet object (getSnapshotValue snap) b0)
        as (H1 & H2 & H3 & H4 & H5 & H6 & H7 & H8); [by left|].
      rewrite H1, H2, H3, H4, H5, H7. repeat split; try done.
Qed.

Lemma flush_pulls snap (os : list nat) b :
  observers_registered b ->
  syncQueue b = (fun o => (o, Some snap)) <$> os ->
  NoDup os ->
  (forall o, o ∈ os -> _directionMap b !! o = Some pull) ->
  exists b',
    flush changed (length os) b = Some (Normal b') /\
    writes b' = writes b /\
    syncQueue b' = [] /\
    (forall o, o ∈ os -> isDestroyed (heap b o) = false ->
               prop (heap b' o) = snap_val snap) /\
    (forall o, o ∉ os -> heap b' o = heap b o).
Proof.
  revert b. induction os as [|o os IH]; intros b Hreg Hq Hnd Hp.
  - exists b. simpl. rewrite Hq. repeat split; try done.
    intros o Ho. by apply elem_of_nil in Ho.
  - apply list.NoDup_cons in Hnd as [Ho Hnd].
    rewrite fmap_cons in Hq. cbn [length flush]. rewrite Hq.
    destruct (sync_pull_step o snap
                (with_syncQueue ((fun o => (o, Some snap)) <$> os) b))
      as (b1 & Hrun & H1 & H2 & H3 & H4 & H5 & H6 & H7 & H8).
    { exact Hreg. }
    { cbn. apply Hp. by left. }
    cbn in H1, H2, H3, H4, H5, H6, H7, H8.
    rewrite Hrun.
    destruct (IH b1) as (b' & Hflush & Hw & Hqe & Hval & Hrest).
    + unfold observers_registered. rewrite H3, H4. exact Hreg.
    + exact H1.
    + exact Hnd.
    + intros x Hx. rewrite H5; [apply Hp; by right|]. intros ->. done.
    + exists b'. split; [exact Hflush|]. split; [by rewrite Hw|]. split; [done|].
      split.
      * intros x Hx Hd. apply elem_of_cons in Hx as [->|Hx].
        -- rewrite (Hrest o Ho). by apply H8.
        -- apply Hval; [done|]. rewrite H6; [done|]. intros ->. done.
      * intros x Hx. apply not_elem_of_cons in Hx as [Hxo Hx].
        rewrite (Hrest x Hx). by apply H6.
Qed.

Lemma refDidChange_queue snap (objs : list nat) b :
  NoDup objs ->
  (forall o, o ∈ objs -> _directionMap b !! o = None) ->
  syncQueue (JsArray.forEach objs (fun o => _scheduleSync pull o (Some snap)) b) =
    syncQueue b ++ ((fun o => (o, Some snap)) <$> objs).
Proof.
  unfold JsArray.forEach. revert b.
  induction objs as [|o objs IH]; intros b Hnd Hnone; simpl.
  - by rewrite app_nil_r.
  - apply list.NoDup_cons in Hnd as [Ho Hnd].
    assert (Hstep : _scheduleSync pull o (Some snap) b =
              with_directionMap (<[o := pull]> (_directionMap b))
                (with_syncQueue (syncQueue b ++ [(o, Some snap)]) b)).
    { unfold _scheduleSync. rewrite (Hnone o) by (by left). cbn.
      destruct (decide (None = Some push /\ pull = pull)) as [[? _]|_]; done. }
    rewrite Hstep, IH; cbn.
    + by rewrite <- app_assoc.
    + done.
    + intros x Hx. rewrite lookup_insert_ne; [apply Hnone; by right|].
      intros ->. done.
Qed.

(** X17: A change of the reference reaches every connected object at the flush:
    on a binding with nothing pending, the flush after [_refDidChange]
    returns, the property of every connected object that is not destroyed
    holds the value of the snapshot, the other objects are as before, nothing
    is written to the reference and the queue is empty. *)
Theorem remote_change_reaches_objects snap b :
  observers_registered b ->
  _ignoreRefChanges b = false ->
  (forall o, o ∈ _objects b -> _directionMap b !! o = None) ->
  syncQueue b = [] ->
  NoDup (_objects b) ->
  exists b',
    flush changed (length (_objects b)) (_refDidChange snap b) = Some (Normal b') /\
    writes b' = writes b /\
    syncQueue b' = [] /\
    (forall o, o ∈ _objects b -> isDestroyed (heap b o) = false ->
               prop (heap b' o) = snap_val snap) /\
    (forall o, o ∉ _objects b -> heap b' o = heap b o).
Proof.
  intros Hreg Hig Hnone Hq Hnd.
  destruct (refDidChange_frame snap b) as (Hway & Hobs & Hheap & Hwr & _).
  destruct (flush_pulls snap (_objects b) (_refDidChange snap b))
    as (b' & Hflush & Hw & Hqe & Hval & Hrest).
  - unfold observers_registered. rewrite Hway, Hobs. exact Hreg.
  - unfold _refDidChange. rewrite Hig, refDidChange_queue by done. by rewrite Hq.
  - exact Hnd.
  - intros o Ho. by apply refDidChange_schedules_pull.
  - exists b'. split; [exact Hflush|]. split; [by rewrite Hw|]. split; [done|].
    split.
    + intros o Ho Hd. apply Hval; [done|]. by rewrite Hheap.
    + intros o Ho. rewrite (Hrest o Ho). by rewrite Hheap.
Qed.

End Pull.

Lemma flush_empties_queue_witness :
  let b := _refDidChange (Snapshot "value" (JNum 9))
             (connect 0 (create "https://example.firebaseio.com/value"
                           (fun _ => Owner false (JNum 1)))) in
  exists c,
    flush (fun _ _ => true) (length (syncQueue b)) b = Some c /\
    (forall b', c = Normal b' -> syncQueue b' = []).
Proof.
  intros b. apply (flush_empties_queue (fun _ _ => true) b).
  intros Hway. discriminate Hway.
Defined.

Lemma one_way_never_writes_witness :
  let b := _refDidChange (Snapshot "value" (JNum 9))
             (connect 0 (oneWay (create "https://example.firebaseio.com/value"
                                   (fun _ => Owner false (JNum 1))))) in
  exists c,
    flush (fun _ _ => true) 1 b = Some c /\
    writes (final c) = [] /\
    prop (heap (final c) 0) = JNum 9.
Proof.
  intros b.
  assert (H0 : one_way (oneWay (create "https://example.firebaseio.com/value"
                                  (fun _ => Owner false (JNum 1))))).
  { split; [reflexivity|]. split; [reflexivity|]. intros o. cbn.
    rewrite lookup_empty. discriminate. }
  destruct (one_way_never_writes (fun _ _ => true) _ H0) as (Hc & _).
  destruct (Hc 0) as [H1 _].
  destruct (one_way_never_writes (fun _ _ => true) _ H1) as (_ & _ & Hr & _).
  destruct (Hr (Snapshot "value" (JNum 9))) as [H2 _].
  destruct (one_way_never_writes (fun _ _ => true) _ H2) as (_ & _ & _ & _ & Hf).
  eexists. split; [reflexivity|]. split; [|reflexivity].
  exact (proj2 (Hf 1 _ eq_refl)).
Defined.

Lemma remote_change_reaches_objects_witness :
  let b := connect 1 (connect 0 (create "https://example.firebaseio.com/value"
                                   (fun _ => Owner false (JNum 1)))) in
  exists b',
    flush (fun _ _ => true) 2 (_refDidChange (Snapshot "value" (JNum 9)) b) =
      Some (Normal b') /\
    writes b' = [] /\
    syncQueue b' = [] /\
    prop (heap b' 0) = JNum 9 /\
    prop (heap b' 1) = JNum 9.
Proof.
  intros b.
  destruct (remote_change_reaches_objects (fun _ _ => true)
              ltac:(discriminate) (Snapshot "value" (JNum 9)) b)
    as (b' & Hrun & Hw & Hq & Hval & _).
  - intros Hway. discriminate Hway.
  - reflexivity.
  - intros o _. apply lookup_empty.
  - reflexivity.
  - apply (bool_decide_unpack _). reflexivity.
  - exists b'. split; [exact Hrun|]. split; [exact Hw|]. split; [exact Hq|].
    split; apply Hval; try reflexivity.
    + apply list_elem_of_here.
    + apply list_elem_of_further, list_elem_of_here.
Defined.

End BindingCoverage.

(** ** Firebase.Hash *)

Section HashCoverage.

Import FirebaseHash.

Variable has_property : string -> bool.
Variable watching : string -> bool.
Variable changed : jsval -> jsval -> bool.

(** Ember's test finds no change only between a value and itself. *)
Hypothesis changed_sound : forall x y, changed x y = false -> x = y.

Implicit Types (h : t) (s : snapshot).

Lemma set_read key value (obj : JsObject.t) :
  (forall k, k <> key ->
     JsObject.own (set watching changed key value obj) !! k = JsObject.own obj !! k) /\
  (key <> JsObject.proto \/ is_Some (JsObject.own obj !! key) ->
     read key (JsObject.own (set watching changed key value obj)) = value /\
     (is_Some (JsObject.own obj !! key) ->
      is_Some (JsObject.own (set watching changed key value obj) !! key))).
Proof.
  unfold set, read. split.
  - intros k Hk.
    destruct (watching key); [destruct (changed _ value)|];
      try done; by apply assign_own_other.
  - intros Hkey.
    destruct (watching key); [destruct (changed _ value) eqn:Hch|].
    + rewrite assign_own_key by done. split; [done|by eexists].
    + apply changed_sound in Hch. by split.
    + rewrite assign_own_key by done. split; [done|by eexists].
Qed.

Lemma set_proto_makes_no_key value (obj : JsObject.t) :
  JsObject.own obj !! JsObject.proto = None ->
  JsObject.null_prototype obj = false ->
  JsObject.own (set watching changed JsObject.proto value obj) = JsObject.own obj.
Proof.
  intros Hnone Hnp. unfold set.
  destruct (watching _); [destruct (changed _ value)|];
    try done; by apply assign_proto_fresh.
Qed.

Lemma assign_all_out (kvs : list (string * jsval)) (o : JsObject.t) (k : string) :
  k ∉ kvs.*1 ->
  JsObject.own
    (fold_left (fun json kv => JsObject.assign kv.1 (getFirebaseValue kv.2) json) kvs o)
    !! k = JsObject.own o !! k.
Proof.
  revert o. induction kvs as [|[k' v'] kvs IH]; intros o Hk; [done|].
  rewrite fmap_cons in Hk. apply not_elem_of_cons in Hk as [Hne Hk]. simpl.
  rewrite IH by done. by apply assign_own_other.
Qed.

Lemma assign_all_in (kvs : list (string * jsval)) (o : JsObject.t) (k : string) v :
  NoDup kvs.*1 -> (k, v) ∈ kvs -> k <> JsObject.proto ->
  JsObject.own
    (fold_left (fun json kv => JsObject.assign kv.1 (getFirebaseValue kv.2) json) kvs o)
    !! k = Some (getFirebaseValue v).
Proof.
  revert o. induction kvs as [|[k' v'] kvs IH]; intros o Hnd Hin Hk.
  - by apply elem_of_nil in Hin.
  - rewrite fmap_cons in Hnd. apply list.NoDup_cons in Hnd as [Hfresh Hnd].
    apply elem_of_cons in Hin as [Heq|Hin]; simpl.
    + injection Heq as -> ->. rewrite assign_all_out by done.
      apply assign_own_key. by left.
    + by apply IH.
Qed.

Lemma assign_all_no_proto (kvs : list (string * jsval)) (o : JsObject.t) :
  NoDup kvs.*1 ->
  JsObject.own o !! JsObject.proto = None ->
  JsObject.null_prototype o = false ->
  JsObject.own
    (fold_left (fun json kv => JsObject.assign kv.1 (getFirebaseValue kv.2) json) kvs o)
    !! JsObject.proto = None.
Proof.
  revert o. induction kvs as [|[k' v'] kvs IH]; intros o Hnd Hnone Hnp; [done|].
  rewrite fmap_cons in Hnd. apply list.NoDup_cons in Hnd as [Hfresh Hnd]. simpl.
  destruct (decide (k' = JsObject.proto)) as [->|Hne].
  - rewrite assign_all_out by done. by rewrite assign_proto_fresh.
  - apply IH; [done| |].
    + by rewrite assign_own_other.
    + unfold JsObject.assign. destruct (decide _) as [(Hp & _)|_]; done.
Qed.

(** [toJSON] has the keys of [content] other than [__proto__], each with the
    Firebase value of its value. *)
Lemma toJSON_lookup h (k : string) :
  toJSON h !! k =
    if decide (k = JsObject.proto) then None else getFirebaseValue <$> content h !! k.
Proof.
  unfold toJSON. destruct (decide (k = JsObject.proto)) as [->|Hk].
  - apply assign_all_no_proto; [apply NoDup_fst_map_to_list|done|done].
  - destruct (content h !! k) as [v|] eqn:Hv; simpl.
    + apply assign_all_in; [apply NoDup_fst_map_to_list| |done].
      by apply elem_of_map_to_list.
    + rewrite assign_all_out; [done|].
      intros Hin. apply list_elem_of_fmap in Hin as ([k' v'] & -> & Hin).
      apply elem_of_map_to_list in Hin. simpl in Hv. congruence.
Qed.

(** X18: After [childWasAdded] of a child not named [__proto__] the key of the
    child reads as the value made from the snapshot, and [toJSON] holds the
    Firebase value of that value unless it is [undefined]. Every other key is
    as before, whatever the name. For the name [__proto__], on a [content]
    that has the prototype of a plain object and no such key, the handler
    adds no key: the keys of [content] are as before. *)
Theorem hash_added_child_is_read s h :
  let value := FirebaseList.createValueFromSnapshot has_property s in
  let h' := childWasAdded has_property watching changed s h in
  (snap_name s <> JsObject.proto ->
     read (snap_name s) (content h') = value /\
     (value <> JUndefined ->
      hasChild (snap_name s) h' = true /\
      toJSON h' !! snap_name s = Some (getFirebaseValue value))) /\
  (forall k, k <> snap_name s -> content h' !! k = content h !! k) /\
  (snap_name s = JsObject.proto ->
   content h !! JsObject.proto = None -> null_prototype h = false ->
     content h' = content h).
Proof.
  intros value h'.
  destruct (set_read (snap_name s) value (JsObject.Make (content h) (null_prototype h)))
    as (Hother & Hkey).
  split; [|split; [exact Hother|]].
  - intros Hne. destruct (Hkey (or_introl Hne)) as (Hread & _).
    split; [exact Hread|].
    intros Hdef. subst h'. unfold hasChild. rewrite toJSON_lookup.
    destruct (decide _) as [|_]; [done|].
    unfold childWasAdded, set_content. cbn [content]. fold value.
    unfold read in Hread.
    destruct (JsObject.own (set watching changed (snap_name s) value _) !! snap_name s)
      as [v|] eqn:Hv; simpl in Hread.
    + subst v. split; [apply bool_decide_eq_true_2; by eexists|done].
    + by destruct Hdef.
  - intros Hproto Hnone Hnp. subst h'.
    unfold childWasAdded, set_content. cbn [content]. rewrite Hproto.
    by rewrite set_proto_makes_no_key.
Qed.

(** X19: [childWasRemoved] sets the key of a known child to [undefined] and keeps
    the key: [hasChild] still answers true for the name, and [toJSON] still
    has the key, with the value [undefined]; only a key [__proto__] is never
    a key of [toJSON]. Every other key is as before. *)
Theorem hash_removed_child_keeps_key s h :
  is_Some (content h !! snap_name s) ->
  let h' := childWasRemoved watching changed s h in
  read (snap_name s) (content h') = JUndefined /\
  hasChild (snap_name s) h' = true /\
  toJSON h' !! snap_name s =
    (if decide (snap_name s = JsObject.proto) then None else Some JUndefined) /\
  (forall k, k <> snap_name s -> content h' !! k = content h !! k).
Proof.
  intros Hknown h'.
  destruct (set_read (snap_name s) JUndefined
              (JsObject.Make (content h) (null_prototype h))) as (Hother & Hkey).
  destruct (Hkey (or_intror Hknown)) as (Hread & Hstays).
  specialize (Hstays Hknown).
  split; [exact Hread|]. split; [|split; [|exact Hother]].
  - unfold hasChild. by apply bool_decide_eq_true_2.
  - rewrite toJSON_lookup. destruct (decide _) as [|_]; [done|].
    subst h'. unfold childWasRemoved, set_content. cbn [content].
    unfold read in Hread. destruct Hstays as [v Hv].
    rewrite Hv in Hread. simpl in Hread. subst v. by rewrite Hv.
Qed.

End HashCoverage.

Lemma hash_added_child_is_read_witness :
  let h := {| FirebaseHash.baseRef := None; FirebaseHash.content := ∅;
              FirebaseHash.null_prototype := false |} in
  let h' := FirebaseHash.childWasAdded FirebaseList.declared (fun _ => false)
              (fun _ _ => true) (Snapshot "a" (JModel (JNum 1))) h in
  let h'' := FirebaseHash.childWasAdded (fun _ => true) (fun _ => false)
               (fun _ _ => true) (Snapshot "__proto__" (JModel (JNum 1))) h in
  (FirebaseHash.hasChild "a" h' = true /\
   FirebaseHash.toJSON h' !! "a" = Some (JNum 1)) /\
  FirebaseHash.content h'' = ∅.
Proof.
  intros h h' h''. split.
  - destruct (hash_added_child_is_read FirebaseList.declared (fun _ => false)
                (fun _ _ => true) ltac:(discriminate) (Snapshot "a" (JModel (JNum 1))) h)
      as (Hkey & _ & _).
    apply Hkey; discriminate.
  - destruct (hash_added_child_is_read (fun _ => true) (fun _ => false)
                (fun _ _ => true) ltac:(discriminate)
                (Snapshot "__proto__" (JModel (JNum 1))) h)
      as (_ & _ & Hproto).
    apply Hproto; reflexivity.
Defined.

Lemma hash_removed_child_keeps_key_witness :
  let h := {| FirebaseHash.baseRef := None;
              FirebaseHash.content := {[ "a" := JNum 1 ]};
              FirebaseHash.null_prototype := false |} in
  let h' := FirebaseHash.childWasRemoved (fun _ => false) (fun _ _ => true)
              (Snapshot "a" JNull) h in
  FirebaseHash.hasChild "a" h' = true /\
  FirebaseHash.toJSON h' !! "a" = Some JUndefined.
Proof.
  intros h h'.
  destruct (hash_removed_child_keeps_key (fun _ => false) (fun _ _ => true)
              ltac:(discriminate) (Snapshot "a" JNull) h)
    as (_ & Hhas & Hjson & _).
  - exists (JNum 1). apply lookup_singleton_eq.
  - by split.
Defined.
